(** * Ant navigation controller (model.py): the directly calculated nodes

    A shallow embedding of the nodes of [Model] that are computed by plain
    Python callbacks (the "calculated directly" nodes of the module
    docstring) and of the controller's command interface ([set_goal],
    [on_displace], [validate_params]).

    Conventions of the embedding:
    - Python floats are idealised as real numbers ([R]); comparisons keep
      the strictness they have in the source.
    - The attributes of [self] that the callbacks read and write form the
      record [Model]; a callback is a function from the state before the
      call to the returned value and the state after it.
    - A raised exception is a value of [exn]; the state after the raise is
      part of the result, so that "nothing was written before the raise" is
      a statement and not a convention. *)

From Stdlib Require Import Reals Lra List String Ascii Bool Arith Lia ZArith.
Import ListNotations.

Local Open Scope R_scope.

(** ** Numeric helpers (numpy and float operations used by the callbacks) *)

Module Num.

(** Boolean comparisons on idealised floats. *)
Definition ltb (a b : R) : bool := if Rlt_dec a b then true else false.
Definition gtb (a b : R) : bool := ltb b a.
Definition leb (a b : R) : bool := if Rle_dec a b then true else false.
Definition geb (a b : R) : bool := leb b a.
Definition eqb (a b : R) : bool := if Req_dec_T a b then true else false.

(** Python truthiness of a float: nonzero. *)
Definition truthy (a : R) : bool := negb (eqb a 0).

(** A 2-D vector, as the two-element lists and arrays of the source. *)
Definition vec2 : Type := (R * R)%type.

Definition vsub (a b : vec2) : vec2 := (fst a - fst b, snd a - snd b).
Definition vadd (a b : vec2) : vec2 := (fst a + fst b, snd a + snd b).

(** [(x**2).sum()] *)
Definition sum_sq (x : vec2) : R := fst x * fst x + snd x * snd x.

(** [np.sqrt((x**2).sum())], the Euclidean norm. *)
Definition norm2 (x : vec2) : R := sqrt (sum_sq x).

(** [np.arctan2(y, x)]: the angle of the point [(x, y)], in (-PI, PI]. *)
Definition arctan2 (y x : R) : R :=
  if ltb 0 x then atan (y / x)
  else if ltb x 0 then
         (if leb 0 y then atan (y / x) + PI else atan (y / x) - PI)
  else if ltb 0 y then PI / 2
  else if ltb y 0 then - (PI / 2)
  else 0.

(** [int(x)] of a float: truncation toward zero. *)
Definition int_of_float (x : R) : Z := if leb 0 x then Zfloor x else Zceil x.

(** [a.max()] / [min(...)]: undefined on an empty sequence (ValueError). *)
Definition np_max (l : list R) : option R :=
  match l with
  | [] => None
  | a :: r => Some (fold_left Rmax r a)
  end.

Definition np_min (l : list R) : option R :=
  match l with
  | [] => None
  | a :: r => Some (fold_left Rmin r a)
  end.

(** [a.argmax()] / [a.argmin()]: index of the first extremal entry. *)
Fixpoint argmax_from (l : list R) (i best_i : nat) (best : R) : nat :=
  match l with
  | [] => best_i
  | a :: r =>
      if ltb best a then argmax_from r (S i) i a
      else argmax_from r (S i) best_i best
  end.

Definition argmax (l : list R) : option nat :=
  match l with
  | [] => None
  | a :: r => Some (argmax_from r 1 0 a)
  end.

Fixpoint argmin_from (l : list R) (i best_i : nat) (best : R) : nat :=
  match l with
  | [] => best_i
  | a :: r =>
      if ltb a best then argmin_from r (S i) i a
      else argmin_from r (S i) best_i best
  end.

Definition argmin (l : list R) : option nat :=
  match l with
  | [] => None
  | a :: r => Some (argmin_from r 1 0 a)
  end.

(** [np.dot] of two vectors of one length. *)
Fixpoint dot (a b : list R) : R :=
  match a, b with
  | p :: a', q :: b' => p * q + dot a' b'
  | _, _ => 0
  end.

(** Elementwise difference of two vectors of one length. *)
Fixpoint lsub (a b : list R) : list R :=
  match a, b with
  | p :: a', q :: b' => (p - q) :: lsub a' b'
  | _, _ => []
  end.

(** Numpy indexing [a[i]] with an integer: negative indices count from the
    end, anything outside raises IndexError ([None]). *)
Definition np_index {A : Type} (a : list A) (i : Z) : option A :=
  let n := Z.of_nat (List.length a) in
  if (0 <=? i)%Z then nth_error a (Z.to_nat i)
  else if (- n <=? i)%Z then nth_error a (Z.to_nat (n + i))
  else None.

End Num.

(** ** Strings *)

Module Str.

(** [str.upper()] on ASCII text. *)
Definition upper_ascii (c : ascii) : ascii :=
  let n := nat_of_ascii c in
  if ((97 <=? n) && (n <=? 122))%nat then ascii_of_nat (n - 32) else c.

Fixpoint upper (s : string) : string :=
  match s with
  | EmptyString => EmptyString
  | String c r => String (upper_ascii c) (upper r)
  end.

(** [name in names] *)
Definition mem (name : string) (names : list string) : bool :=
  existsb (String.eqb name) names.

End Str.

(** ** Results of calls that may raise *)

Inductive exn : Type :=
| AssertionError
| ValueError
| IndexError
| KeyError.

Inductive result (A : Type) : Type :=
| Ok (a : A)
| Raise (e : exn).

Arguments Ok {A} a.
Arguments Raise {A} e.

Definition raised {A : Type} (r : result A) : bool :=
  match r with
  | Ok _ => false
  | Raise _ => true
  end.

(** ** Static data: parameters, scene, vocabularies *)

(** The attributes of [params] that the modelled code reads. *)
Record Params : Type := {
  catch_area_radius : R;
  catch_vec_thres : R;
  catch_vec_core : R;
  sp_dim : nat;
  saved_data : option (list string)   (* [None], or a list of names *)
}.

(** The attributes of [scene] that the modelled code reads. *)
Record Scene : Type := {
  goals_names : list string;
  waypts_names : list string;
  waypts_pos : list Num.vec2;
  routes_names : list string;
  routes_waypts_names : list (list string)
}.

(** [spa.Vocabulary]: keys and their vectors, index by index. *)
Record Vocabulary : Type := {
  keys : list string;
  vectors : list (list R)
}.

(** [spa.similarity(data, vocab)]: dot product with every vector. *)
Definition similarity (data : list R) (vocab : Vocabulary) : list R :=
  map (fun v => Num.dot v data) (vectors vocab).

(** [vocab[key].v] *)
Fixpoint vocab_get (ks : list string) (vs : list (list R)) (key : string)
  : option (list R) :=
  match ks, vs with
  | k :: ks', v :: vs' => if String.eqb k key then Some v else vocab_get ks' vs' key
  | _, _ => None
  end.

(** What the callbacks close over. *)
Record Env : Type := {
  params : Params;
  scene : Scene;
  goals_vocab : Vocabulary;
  routepts_vocab : Vocabulary
}.

(** [Model.probeable] *)
Definition probeable : list string :=
  [ "action_names"; "bg"; "bot_orient"; "bot_pos"; "catch_area";
    "catch_vec"; "displace"; "gain_catch_vec"; "gain_catch_vec_neurons";
    "gate_reset"; "gate_routept_cleanup"; "gate_target_vec";
    "gate_target_vec_goal"; "gate_view_routept"; "global_vec"; "goal";
    "goal_neurons"; "goal0view"; "goal_detect"; "goal_input";
    "goals2goals_vecs"; "goals_names"; "goals_vocab"; "motion_vec";
    "motion_vec_neurons"; "next_routept"; "next_routept_neurons";
    "norm_target_vec"; "prev2next_routepts"; "prev_routept";
    "prev_routept_neurons"; "routept_cleanup"; "routepts2norm_local_vecs";
    "routepts2views"; "routepts_vocab"; "routes_waypts_names";
    "routes_waypts_pos"; "scaled_catch_vec"; "scaled_local_vec";
    "scaled_target_vec"; "target_vec"; "target_vec_neurons"; "thal";
    "thal_neurons"; "view"; "view_neurons"; "view7view"; "view_routept";
    "view_routept_neurons"; "views_vocab"; "vision"; "waypts_names";
    "waypts_pos"; "wheel_speeds" ]%string.

(** ** Mutable controller state *)

(** The attributes of [self] written by the callbacks and commands. *)
Record Model : Type := {
  _goal_reached : bool;
  _goal_name : option string;       (* [None] until the first goal tick *)
  _new_goal_name : option string;   (* pending goal change *)
  _displaced : bool;
  _global_vec : Num.vec2;
  _bot_prev_pos : Num.vec2;
  _t_displace : option R;
  _t_new_goal : option R;
  _goal_sp : option (list R);
  _t_goal_reached : option R
}.

(** [Model.__init__] followed by the initialisations of [_make_model]. *)
Definition init_model (init_global_vec bot_init_pos : Num.vec2) : Model :=
  {| _goal_reached := false;
     _goal_name := None;
     _new_goal_name := Some "NONE"%string;
     _displaced := false;
     _global_vec := init_global_vec;
     _bot_prev_pos := bot_init_pos;
     _t_displace := None;
     _t_new_goal := None;
     _goal_sp := None;
     _t_goal_reached := None |}.

(** Field updates. *)
Definition set_goal_reached (b : bool) (m : Model) : Model :=
  {| _goal_reached := b; _goal_name := _goal_name m;
     _new_goal_name := _new_goal_name m; _displaced := _displaced m;
     _global_vec := _global_vec m; _bot_prev_pos := _bot_prev_pos m;
     _t_displace := _t_displace m; _t_new_goal := _t_new_goal m;
     _goal_sp := _goal_sp m; _t_goal_reached := _t_goal_reached m |}.

Definition set_goal_name (g : option string) (m : Model) : Model :=
  {| _goal_reached := _goal_reached m; _goal_name := g;
     _new_goal_name := _new_goal_name m; _displaced := _displaced m;
     _global_vec := _global_vec m; _bot_prev_pos := _bot_prev_pos m;
     _t_displace := _t_displace m; _t_new_goal := _t_new_goal m;
     _goal_sp := _goal_sp m; _t_goal_reached := _t_goal_reached m |}.

Definition set_new_goal_name (g : option string) (m : Model) : Model :=
  {| _goal_reached := _goal_reached m; _goal_name := _goal_name m;
     _new_goal_name := g; _displaced := _displaced m;
     _global_vec := _global_vec m; _bot_prev_pos := _bot_prev_pos m;
     _t_displace := _t_displace m; _t_new_goal := _t_new_goal m;
     _goal_sp := _goal_sp m; _t_goal_reached := _t_goal_reached m |}.

Definition set_displaced (b : bool) (m : Model) : Model :=
  {| _goal_reached := _goal_reached m; _goal_name := _goal_name m;
     _new_goal_name := _new_goal_name m; _displaced := b;
     _global_vec := _global_vec m; _bot_prev_pos := _bot_prev_pos m;
     _t_displace := _t_displace m; _t_new_goal := _t_new_goal m;
     _goal_sp := _goal_sp m; _t_goal_reached := _t_goal_reached m |}.

Definition set_global_vec (g : Num.vec2) (m : Model) : Model :=
  {| _goal_reached := _goal_reached m; _goal_name := _goal_name m;
     _new_goal_name := _new_goal_name m; _displaced := _displaced m;
     _global_vec := g; _bot_prev_pos := _bot_prev_pos m;
     _t_displace := _t_displace m; _t_new_goal := _t_new_goal m;
     _goal_sp := _goal_sp m; _t_goal_reached := _t_goal_reached m |}.

Definition set_bot_prev_pos (p : Num.vec2) (m : Model) : Model :=
  {| _goal_reached := _goal_reached m; _goal_name := _goal_name m;
     _new_goal_name := _new_goal_name m; _displaced := _displaced m;
     _global_vec := _global_vec m; _bot_prev_pos := p;
     _t_displace := _t_displace m; _t_new_goal := _t_new_goal m;
     _goal_sp := _goal_sp m; _t_goal_reached := _t_goal_reached m |}.

Definition set_t_displace (t : option R) (m : Model) : Model :=
  {| _goal_reached := _goal_reached m; _goal_name := _goal_name m;
     _new_goal_name := _new_goal_name m; _displaced := _displaced m;
     _global_vec := _global_vec m; _bot_prev_pos := _bot_prev_pos m;
     _t_displace := t; _t_new_goal := _t_new_goal m;
     _goal_sp := _goal_sp m; _t_goal_reached := _t_goal_reached m |}.

Definition set_t_new_goal (t : option R) (m : Model) : Model :=
  {| _goal_reached := _goal_reached m; _goal_name := _goal_name m;
     _new_goal_name := _new_goal_name m; _displaced := _displaced m;
     _global_vec := _global_vec m; _bot_prev_pos := _bot_prev_pos m;
     _t_displace := _t_displace m; _t_new_goal := t;
     _goal_sp := _goal_sp m; _t_goal_reached := _t_goal_reached m |}.

Definition set_goal_sp (v : option (list R)) (m : Model) : Model :=
  {| _goal_reached := _goal_reached m; _goal_name := _goal_name m;
     _new_goal_name := _new_goal_name m; _displaced := _displaced m;
     _global_vec := _global_vec m; _bot_prev_pos := _bot_prev_pos m;
     _t_displace := _t_displace m; _t_new_goal := _t_new_goal m;
     _goal_sp := v; _t_goal_reached := _t_goal_reached m |}.

Definition set_t_goal_reached (t : option R) (m : Model) : Model :=
  {| _goal_reached := _goal_reached m; _goal_name := _goal_name m;
     _new_goal_name := _new_goal_name m; _displaced := _displaced m;
     _global_vec := _global_vec m; _bot_prev_pos := _bot_prev_pos m;
     _t_displace := _t_displace m; _t_new_goal := _t_new_goal m;
     _goal_sp := _goal_sp m; _t_goal_reached := t |}.

(** ** Wheel speeds *)

(** [update_wheel_speeds(t, x)], model.py 1023-1030. *)
Definition update_wheel_speeds (t : R) (x : Num.vec2) : R * R :=
  if Num.ltb (Num.norm2 x) 0.05 then (0, 0)                  (* stop *)
  else
    let theta := Num.arctan2 (snd x) (fst x) in
    if Num.ltb (-0.4) theta && Num.ltb theta 0.4
    then (5.0 - theta, 5.0 + theta)       (* (curvilinear) motion forward *)
    else (-5.0 * theta, 5.0 * theta).     (* rotation on the spot *)

(** ** Parameter validation *)

(** The generator of [validate_params]:
    [((pos1 - pos2)**2).sum() for p, pos1 in enumerate(waypts_pos)
                              for pos2 in waypts_pos[p+1:]] *)
Fixpoint pairs_square_dists (ps : list Num.vec2) : list R :=
  match ps with
  | [] => []
  | pos1 :: rest =>
      map (fun pos2 => Num.sum_sq (Num.vsub pos1 pos2)) rest
        ++ pairs_square_dists rest
  end.

(** The loop over [enumerate(scene.routes_waypts_names)]; [r] is the index
    of the first route of [routes].  The assertion message reads
    [scene.routes_names[r]]. *)
Fixpoint validate_routes (sc : Scene) (r : nat) (routes : list (list string))
  : result unit :=
  match routes with
  | [] => Ok tt
  | route_waypts_names :: rest =>
      match Num.np_index route_waypts_names (-1) with
      | None => Raise IndexError
      | Some last_name =>
          if Str.mem last_name (goals_names sc)
          then validate_routes sc (S r) rest
          else match nth_error (routes_names sc) r with
               | Some _ => Raise AssertionError
               | None => Raise IndexError
               end
      end
  end.

(** [set(params.saved_data) - set(cls.probeable)], as a list. *)
Definition unprobeable (names : list string) : list string :=
  filter (fun n => negb (Str.mem n probeable)) names.

(** [Model.validate_params(params, scene)], model.py 195-233. *)
Definition validate_params (p : Params) (sc : Scene) : result unit :=
  (* Validate number of goals *)
  if negb (2 <=? List.length (goals_names sc))%nat then Raise AssertionError
  (* Validate names of goals *)
  else if existsb (fun goal_name => String.eqb (Str.upper goal_name) "NONE")
                  (goals_names sc)
  then Raise AssertionError
  (* Validate radius of catchment areas *)
  else match Num.np_min (pairs_square_dists (waypts_pos sc)) with
  | None => Raise ValueError
  | Some m =>
      let min_waypts_dist := sqrt m in
      if negb (Num.ltb (catch_area_radius p) (min_waypts_dist / 2))
      then Raise AssertionError
      (* Validate core region of catchment vector *)
      else if negb (Num.ltb (catch_vec_core p) 1.0) then Raise AssertionError
      (* Validate number of routes *)
      else if negb (1 <=? List.length (routes_names sc))%nat
      then Raise AssertionError
      (* Validate routes *)
      else match validate_routes sc 0 (routes_waypts_names sc) with
      | Raise e => Raise e
      | Ok _ =>
          (* Validate data to be saved *)
          match saved_data p with
          | None => Ok tt
          | Some names =>
              match unprobeable names with
              | [] => Ok tt
              | _ :: _ => Raise ValueError
              end
          end
      end
  end.

(** ** Commands *)

(** [Model.on_displace()], model.py 235-237. *)
Definition on_displace (m : Model) : Model := set_displaced true m.

(** [Model.set_goal(goal_name)], model.py 511-518. *)
Definition set_goal (sc : Scene) (goal_name : string) (m : Model)
  : result unit * Model :=
  if match _goal_name m with
     | Some current => String.eqb goal_name current
     | None => false
     end
  then (Ok tt, m)                               (* same goal as already set *)
  else if negb (Str.mem goal_name (goals_names sc))
  then (Raise ValueError, m)
  else (Ok tt, set_goal_reached false (set_new_goal_name (Some goal_name) m)).

(** ** Nodes with state *)

(** [update_global_vec(t, x)], model.py 625-636. *)
Definition update_global_vec (t : R) (x : Num.vec2) (m : Model)
  : Num.vec2 * Model :=
  let m' :=
    if negb (_displaced m)
       && match _t_displace m with None => true | Some _ => false end
    then
      let bot_diff_pos := Num.vsub x (_bot_prev_pos m) in
      if Num.truthy (fst bot_diff_pos) || Num.truthy (snd bot_diff_pos)
      then set_bot_prev_pos (Num.vadd (_bot_prev_pos m) bot_diff_pos)
             (set_global_vec (Num.vadd (_global_vec m) bot_diff_pos) m)
      else m
    else set_bot_prev_pos x m
  in (_global_vec m', m').

(** [update_displace(t)], model.py 711-721.  The returned bool is the
    node's output, [True] being 1. *)
Definition update_displace (t : R) (m : Model) : bool * Model :=
  if _displaced m
  then (true, set_displaced false (set_t_displace (Some t) m))
  else match _t_displace m with
       | Some t_displace =>
           if Num.ltb t (t_displace + 0.1) then (true, m)
           else (false, set_t_displace None m)
       | None => (false, m)
       end.

(** [update_goal_input(t, x)], model.py 734-747.  The first component of
    the output is the goal-set flag.  A goal name whose key is not in the
    vocabulary does not occur ([set_goal] accepts names of
    [scene.goals_names] only, and [_make_model] enters their upper-case
    forms and NONE); the lookup is modelled as a raise there. *)
Definition update_goal_input (env : Env) (t : R) (x : list R) (m : Model)
  : result (list R) * Model :=
  match _new_goal_name m with
  | Some new_goal_name =>
      let m1 := set_t_new_goal (Some t) (set_goal_name (Some new_goal_name) m) in
      match vocab_get (keys (goals_vocab env)) (vectors (goals_vocab env))
                      (Str.upper new_goal_name) with
      | None => (Raise KeyError, m1)
      | Some v =>
          let goal_sp := Num.lsub v x in
          (Ok (1 :: goal_sp),
           set_new_goal_name None (set_goal_sp (Some goal_sp) m1))
      end
  | None =>
      match _t_new_goal m with
      | Some t_new_goal =>
          if Num.ltb t (t_new_goal + 0.1)
          then (Ok (1 :: match _goal_sp m with Some v => v | None => [] end), m)
          else (Ok (0 :: repeat 0 (sp_dim (params env))),
                set_goal_sp None (set_t_new_goal None m))
      | None => (Ok (0 :: repeat 0 (sp_dim (params env))), m)
      end
  end.

(** ["{0}xVIEW_{0}".format(goal_name.upper())] *)
Definition goal_routept_sp_key (goal_name : string) : string :=
  let g := Str.upper goal_name in (g ++ "xVIEW_" ++ g)%string.

(** [update_goal_detect(t, x)], model.py 767-797. *)
Definition update_goal_detect (env : Env) (t : R) (x : list R) (m : Model)
  : result bool * Model :=
  let sp_dim := sp_dim (params env) in
  let goals_dots := similarity (firstn sp_dim x) (goals_vocab env) in
  match Num.np_max goals_dots, Num.argmax goals_dots with
  | Some goals_max, Some g =>
      if Num.ltb goals_max 0.45   (* insufficient similarity to any goal *)
      then (Ok (_goal_reached m), set_t_goal_reached None m)
      else
        let routepts_dots :=
          similarity (firstn sp_dim (skipn sp_dim x)) (routepts_vocab env) in
        match Num.np_max routepts_dots, Num.argmax routepts_dots with
        | Some routepts_max, Some r =>
            if Num.ltb routepts_max 0.45   (* ... to any routepoint *)
            then (Ok (_goal_reached m), set_t_goal_reached None m)
            else if (g =? 0)%nat               (* "NONE" *)
            then (Ok (_goal_reached m), set_t_goal_reached None m)
            else
              match nth_error (goals_names (scene env)) (g - 1) with
              | None => (Raise IndexError, m)
              | Some goal_name =>
                  let routept_sp_key := goal_routept_sp_key goal_name in
                  match nth_error (keys (routepts_vocab env)) r with
                  | None => (Raise IndexError, m)
                  | Some key =>
                      if String.eqb key routept_sp_key
                      then
                        match _t_goal_reached m with
                        | None => (Ok (_goal_reached m),
                                   set_t_goal_reached (Some t) m)
                        | Some t_goal_reached =>
                            if Num.ltb (t_goal_reached + 0.2) t
                            then (Ok true,
                                  set_goal_reached true
                                    (set_t_goal_reached None m))
                            else (Ok (_goal_reached m), m)
                        end
                      else (Ok (_goal_reached m), set_t_goal_reached None m)
                  end
              end
        | _, _ => (Raise ValueError, m)
        end
  | _, _ => (Raise ValueError, m)
  end.

(** ** Nodes without state: catchment area and catchment vector *)

(** [update_catch_area(t, x)], model.py 649-656.  Output: waypoint id (as
    a float) and normalized distance, or [(-1, -1)]. *)
Definition update_catch_area (env : Env) (t : R) (x : Num.vec2)
  : result (R * R) :=
  let waypts_square_dists :=
    map (fun pos => Num.sum_sq (Num.vsub pos x)) (waypts_pos (scene env)) in
  match Num.np_min waypts_square_dists, Num.argmin waypts_square_dists with
  | Some m, Some w =>
      let min_waypts_dist := sqrt m in
      if Num.ltb min_waypts_dist (catch_area_radius (params env))
      then Ok (INR w, min_waypts_dist / catch_area_radius (params env))
      else Ok (-1.0, -1.0)
  | _, _ => Raise ValueError
  end.

(** The five inputs of the catchment-vector node, [x[0]] to [x[4]]. *)
Record CatchVecIn : Type := {
  waypt_id : R;
  norm_waypt_dist : R;
  bot_pos : Num.vec2;
  view7view : R
}.

(** [update_catch_vec(t, x)], model.py 673-680.  Output: the two
    components of the catchment vector and its gain.
    [np.sqrt(catch_vec**2).sum()] takes the root of each squared component
    and then sums. *)
Definition update_catch_vec (env : Env) (t : R) (x : CatchVecIn)
  : result (Num.vec2 * R) :=
  if Num.gtb (norm_waypt_dist x) 0.0
     && Num.gtb (view7view x) (catch_vec_thres (params env))
  then
    match Num.np_index (waypts_pos (scene env))
                       (Num.int_of_float (waypt_id x)) with
    | None => Raise IndexError
    | Some waypt_pos =>
        let catch_vec := Num.vsub waypt_pos (bot_pos x) in
        let catch_vec_norm :=
          sqrt (fst catch_vec * fst catch_vec)
          + sqrt (snd catch_vec * snd catch_vec) in
        let catch_vec_gain :=
          Rmin ((1.0 - norm_waypt_dist x) / (1.0 - catch_vec_core (params env)))
               1.0 in
        Ok ((fst catch_vec / catch_vec_norm, snd catch_vec / catch_vec_norm),
            catch_vec_gain)
    end
  else Ok ((0.0, 0.0), 0.0).

(** ** Everything that writes the controller state *)

Inductive Op : Type :=
| SetGoal (goal_name : string)
| OnDisplace
| UpdateGlobalVec (t : R) (x : Num.vec2)
| UpdateDisplace (t : R)
| UpdateGoalInput (t : R) (x : list R)
| UpdateGoalDetect (t : R) (x : list R).

(** The state after one operation (after the raise, when it raises). *)
Definition exec (env : Env) (o : Op) (m : Model) : Model :=
  match o with
  | SetGoal goal_name => snd (set_goal (scene env) goal_name m)
  | OnDisplace => on_displace m
  | UpdateGlobalVec t x => snd (update_global_vec t x m)
  | UpdateDisplace t => snd (update_displace t m)
  | UpdateGoalInput t x => snd (update_goal_input env t x m)
  | UpdateGoalDetect t x => snd (update_goal_detect env t x m)
  end.

Definition exec_all (env : Env) (ops : list Op) (m : Model) : Model :=
  fold_left (fun acc o => exec env o acc) ops m.

(** ** Runs of one node over successive evaluations *)

(** Successive evaluations of the global-vector node: the outputs, and the
    state after the last one. *)
Fixpoint run_global_vec (evs : list (R * Num.vec2)) (m : Model)
  : list Num.vec2 * Model :=
  match evs with
  | [] => ([], m)
  | (t, x) :: rest =>
      let (g, m') := update_global_vec t x m in
      let (gs, m'') := run_global_vec rest m' in
      (g :: gs, m'')
  end.

(** Observed position deltas: each position minus the one before it, the
    first minus the stored previous position. *)
Fixpoint pos_deltas (prev : Num.vec2) (xs : list Num.vec2) : list Num.vec2 :=
  match xs with
  | [] => []
  | x :: rest => Num.vsub x prev :: pos_deltas x rest
  end.

Definition vsum (vs : list Num.vec2) : Num.vec2 :=
  fold_right Num.vadd (0, 0) vs.

(** Successive evaluations of the displacement node at the given times. *)
Fixpoint run_displace (ts : list R) (m : Model) : list bool * Model :=
  match ts with
  | [] => ([], m)
  | t :: rest =>
      let (b, m') := update_displace t m in
      let (bs, m'') := run_displace rest m' in
      (b :: bs, m'')
  end.

(** Evaluation times in the order of logical time. *)
Fixpoint ascending (t0 : R) (ts : list R) : Prop :=
  match ts with
  | [] => True
  | t :: rest => t0 <= t /\ ascending t rest
  end.

(** Successive evaluations of the goal-detection node; an evaluation that
    raises ends the run. *)
Fixpoint run_goal_detect (env : Env) (evs : list (R * list R)) (m : Model)
  : Model :=
  match evs with
  | [] => m
  | (t, x) :: rest =>
      match update_goal_detect env t x m with
      | (Ok _, m') => run_goal_detect env rest m'
      | (Raise _, m') => m'
      end
  end.

(** The qualifying match of goal detection, on the node's input: the goal
    part and the routepoint part both resolve with similarity at least
    0.45, the resolved goal is not NONE (index 0 of the goal vocabulary),
    and the resolved routepoint is the one binding that goal with its own
    view. *)
Definition qualifying (env : Env) (x : list R) : bool :=
  let d := sp_dim (params env) in
  let goals_dots := similarity (firstn d x) (goals_vocab env) in
  let routepts_dots := similarity (firstn d (skipn d x)) (routepts_vocab env) in
  match Num.np_max goals_dots, Num.argmax goals_dots,
        Num.np_max routepts_dots, Num.argmax routepts_dots with
  | Some goals_max, Some g, Some routepts_max, Some r =>
      Num.geb goals_max 0.45 && Num.geb routepts_max 0.45
      && negb (g =? 0)%nat
      && match nth_error (goals_names (scene env)) (g - 1),
               nth_error (keys (routepts_vocab env)) r with
         | Some goal_name, Some key =>
             String.eqb key (goal_routept_sp_key goal_name)
         | _, _ => false
         end
  | _, _, _, _ => false
  end.

(** ** Further nodes and tables of [_make_model] *)

(** [views_sp_keys], model.py 544-545. *)
Definition views_sp_keys (sc : Scene) : list string :=
  map (fun waypt_name => ("VIEW_" ++ Str.upper waypt_name)%string)
      (waypts_names sc).

(** [update_vision(t, x)], model.py 695-700; [x] is the output of the
    catchment-area node.  The key lookup in the view vocabulary is
    modelled as for the goal vocabulary: [_make_model] enters every key of
    [views_sp_keys], a missing key is a raise. *)
Definition update_vision (env : Env) (views_vocab : Vocabulary) (t : R)
  (x : R * R) : result (list R) :=
  if Num.geb (snd x) 0.0
  then
    let gain := 1.0 - 0.7 * snd x in
    match Num.np_index (views_sp_keys (scene env))
                       (Num.int_of_float (fst x)) with
    | None => Raise IndexError
    | Some key =>
        match vocab_get (keys views_vocab) (vectors views_vocab) key with
        | None => Raise KeyError
        | Some v => Ok (map (fun c => gain * c) v)
        end
    end
  else Ok (repeat 0.0 (sp_dim (params env))).

(** [normalize_target_vec(x)], model.py 833-837. *)
Definition normalize_target_vec (x : Num.vec2) : Num.vec2 :=
  if Num.truthy (fst x) || Num.truthy (snd x)
  then (fst x / Num.norm2 x, snd x / Num.norm2 x)
  else (0.0, 0.0).

(** [np.diff(a, axis=0)]: differences of consecutive rows. *)
Fixpoint np_diff (ps : list Num.vec2) : list Num.vec2 :=
  match ps with
  | a :: (b :: _) as rest => Num.vsub b a :: np_diff rest
  | _ => []
  end.

(** One iteration of the first loop of [_make_model], model.py 527-536:
    the normalized local vectors of a route, from the positions of its
    waypoints.  All rows but the last are the differences divided by their
    norms, the last row stays zero.  (Two equal consecutive positions make
    numpy divide zero by zero; the statements below exclude them.) *)
Definition route_norm_local_vecs (route_waypts_pos : list Num.vec2)
  : list Num.vec2 :=
  match route_waypts_pos with
  | [] => []
  | _ :: _ =>
      map (fun v => (fst v / Num.norm2 v, snd v / Num.norm2 v))
          (np_diff route_waypts_pos)
        ++ [(0, 0)]
  end.

(** ["{0}x{1}".format(goal_sp_key, view_sp_key)] *)
Definition routept_sp_key (goal_sp_key view_sp_key : string) : string :=
  (goal_sp_key ++ "x" ++ view_sp_key)%string.

(** The keys that one iteration of the vocabulary loop of [_make_model]
    (model.py 552-577) collects in [route_routepts_sp_keys]; reading the
    goal of an empty route raises. *)
Definition route_routepts_sp_keys (route_waypts_names : list string)
  : result (list string) :=
  match Num.np_index route_waypts_names (-1) with
  | None => Raise IndexError
  | Some goal_name =>
      let goal_sp_key := Str.upper goal_name in
      Ok (map (fun route_waypt_name =>
                 routept_sp_key goal_sp_key
                   ("VIEW_" ++ Str.upper route_waypt_name)%string)
              route_waypts_names)
  end.

(** The whole loop: [routes_routepts_sp_keys]. *)
Fixpoint routes_routepts_sp_keys (routes : list (list string))
  : result (list (list string)) :=
  match routes with
  | [] => Ok []
  | route :: rest =>
      match route_routepts_sp_keys route with
      | Raise e => Raise e
      | Ok ks =>
          match routes_routepts_sp_keys rest with
          | Raise e => Raise e
          | Ok kss => Ok (ks :: kss)
          end
      end
  end.

(** The keys of the memory from previous to next routepoints, model.py
    882-887: [ks[:-1]] and [ks[1:]] of every route, concatenated. *)
Definition prev2next_input_keys (kss : list (list string)) : list string :=
  List.concat (map (@removelast string) kss).

Definition prev2next_output_keys (kss : list (list string)) : list string :=
  List.concat (map (@tl string) kss).

(** The keys of the memory from routepoints to views, model.py 931-936. *)
Definition routepts2views_input_keys (kss : list (list string)) : list string :=
  List.concat kss.

Definition routepts2views_output_keys (sc : Scene) : list string :=
  List.concat (map (map (fun route_waypt_name =>
                      ("VIEW_" ++ Str.upper route_waypt_name)%string))
              (routes_waypts_names sc)).

(** Successive evaluations of the new-goal node: the results, and the
    state after the last one. *)
Fixpoint run_goal_input (env : Env) (evs : list (R * list R)) (m : Model)
  : list (result (list R)) * Model :=
  match evs with
  | [] => ([], m)
  | (t, x) :: rest =>
      let (r, m') := update_goal_input env t x m in
      let (rs, m'') := run_goal_input env rest m' in
      (r :: rs, m'')
  end.

(** The vocabularies have the shape [_make_model] gives them: the goal
    vocabulary holds NONE and then one vector per goal, the routepoint
    vocabulary is not empty and has one key per vector. *)
Definition vocabs_shaped (env : Env) : Prop :=
  List.length (vectors (goals_vocab env))
  = S (List.length (goals_names (scene env))) /\
  vectors (routepts_vocab env) <> [] /\
  List.length (keys (routepts_vocab env))
  = List.length (vectors (routepts_vocab env)).

(** ** The configuration failures, as conditions on parameters and scene *)

Definition too_few_goals (sc : Scene) : Prop :=
  (List.length (goals_names sc) < 2)%nat.

Definition reserved_goal_name (sc : Scene) : Prop :=
  exists goal_name,
    In goal_name (goals_names sc) /\ Str.upper goal_name = "NONE"%string.

(** The radius is not strictly less than half the distance of some pair of
    distinct waypoints (equivalently, of a closest pair). *)
Definition radius_too_large (p : Params) (sc : Scene) : Prop :=
  exists i j a b,
    (i < j)%nat /\
    nth_error (waypts_pos sc) i = Some a /\
    nth_error (waypts_pos sc) j = Some b /\
    ~ catch_area_radius p < Num.norm2 (Num.vsub a b) / 2.

Definition core_too_large (p : Params) : Prop := 1 <= catch_vec_core p.

Definition no_routes (sc : Scene) : Prop :=
  List.length (routes_names sc) = 0%nat.

Definition route_not_to_goal (sc : Scene) : Prop :=
  exists route init w,
    In route (routes_waypts_names sc) /\
    route = init ++ [w] /\ ~ In w (goals_names sc).

Definition unprobeable_requested (p : Params) : Prop :=
  exists names n,
    saved_data p = Some names /\ In n names /\ ~ In n probeable.

Definition listed_failure (p : Params) (sc : Scene) : Prop :=
  too_few_goals sc \/ reserved_goal_name sc \/ radius_too_large p sc \/
  core_too_large p \/ no_routes sc \/ route_not_to_goal sc \/
  unprobeable_requested p.

(** ** Concrete scenes and inputs used in the examples *)

(** The parameters of experiments/multiple_goals/params.py that the
    modelled code reads, with no data saved (as gui.py sets it) and a small
    dimension. *)
Definition example_params : Params :=
  {| catch_area_radius := 1.0;
     catch_vec_thres := 0.2;
     catch_vec_core := 0.2;
     sp_dim := 3;
     saved_data := None |}.

(** The parameters of experiments/multiple_goals/params.py that the
    modelled code reads. *)
Definition multiple_goals_params : Params :=
  {| catch_area_radius := 1.0;
     catch_vec_thres := 0.2;
     catch_vec_core := 0.2;
     sp_dim := 64;
     saved_data := Some
       [ "action_names"; "bg"; "bot_orient"; "bot_pos"; "catch_area";
         "catch_vec"; "displace"; "gain_catch_vec"; "gate_reset";
         "gate_routept_cleanup"; "gate_target_vec"; "gate_target_vec_goal";
         "gate_view_routept"; "global_vec"; "goal"; "goal0view";
         "goal_detect"; "goal_input"; "goals2goals_vecs"; "goals_names";
         "goals_vocab"; "motion_vec"; "next_routept"; "norm_target_vec";
         "prev2next_routepts"; "prev_routept"; "routept_cleanup";
         "routepts2norm_local_vecs"; "routepts2views"; "routepts_vocab";
         "routes_waypts_names"; "routes_waypts_pos"; "scaled_catch_vec";
         "scaled_local_vec"; "scaled_target_vec"; "target_vec"; "thal";
         "view"; "view7view"; "view_routept"; "views_vocab"; "vision";
         "waypts_names"; "waypts_pos"; "wheel_speeds" ]%string |}.

(** The scene of dummyscene.py. *)
Definition dummy_scene : Scene :=
  {| goals_names := ["Nest"; "Feed1"]%string;
     waypts_names :=
       ["Nest"; "Feed1"; "Waypoint1"; "Waypoint2"; "Waypoint3"; "Waypoint4";
        "Waypoint5"]%string;
     waypts_pos :=
       [(0.0, 0.0); (6.0, 8.0); (0.0, 2.5); (3.0, 6.5); (5.5, 5.5);
        (4.5, 3.0); (3.0, 1.0)];
     routes_names := ["Route1"; "Route2"]%string;
     routes_waypts_names :=
       [ ["Nest"; "Waypoint1"; "Waypoint2"; "Feed1"]%string;
         ["Feed1"; "Waypoint3"; "Waypoint4"; "Waypoint5"; "Nest"]%string ] |}.

(** Two goals, Nest at (0,0) and Feed1 at (6,8), and one route between
    them through a waypoint. *)
Definition two_goal_scene : Scene :=
  {| goals_names := ["Nest"; "Feed1"]%string;
     waypts_names := ["Nest"; "Feed1"; "Waypoint1"]%string;
     waypts_pos := [(0, 0); (6, 8); (3, 4)];
     routes_names := ["Route1"]%string;
     routes_waypts_names := [["Nest"; "Waypoint1"; "Feed1"]%string] |}.

(** The same goals and a route between them, but a waypoint collection
    with a single object. *)
Definition lone_waypt_scene : Scene :=
  {| goals_names := ["Nest"; "Feed1"]%string;
     waypts_names := ["Waypoint1"]%string;
     waypts_pos := [(3, 4)];
     routes_names := ["Route1"]%string;
     routes_waypts_names := [["Nest"; "Feed1"]%string] |}.

(** Orthogonal unit codes for the symbols of [two_goal_scene]. *)
Definition example_env : Env :=
  {| params := example_params;
     scene := two_goal_scene;
     goals_vocab :=
       {| keys := ["NONE"; "NEST"; "FEED1"]%string;
          vectors := [[1; 0; 0]; [0; 1; 0]; [0; 0; 1]] |};
     routepts_vocab :=
       {| keys := ["FEED1xVIEW_NEST"; "FEED1xVIEW_WAYPOINT1";
                   "FEED1xVIEW_FEED1"]%string;
          vectors := [[1; 0; 0]; [0; 1; 0]; [0; 0; 1]] |} |}.

(** Goal state FEED1 and previous routepoint FEED1xVIEW_FEED1. *)
Definition at_goal_input : list R := [0; 0; 1; 0; 0; 1].

(** Goal state FEED1 and previous routepoint FEED1xVIEW_WAYPOINT1. *)
Definition on_route_input : list R := [0; 0; 1; 0; 1; 0].

(** Orthogonal unit codes for the views of [two_goal_scene]. *)
Definition example_views_vocab : Vocabulary :=
  {| keys := ["VIEW_NEST"; "VIEW_FEED1"; "VIEW_WAYPOINT1"]%string;
     vectors := [[1; 0; 0]; [0; 1; 0]; [0; 0; 1]] |}.

(** The controller at Feed1 with Feed1 as current goal and the
    goal-reached flag up. *)
Definition arrived_model : Model :=
  set_goal_reached true
    (set_new_goal_name None
       (set_goal_name (Some "Feed1"%string) (init_model (0, 0) (0, 0)))).

(** The input of the catchment-vector node for a robot exactly at
    Waypoint1 (index 2) with full view-match confidence. *)
Definition at_centre_input : CatchVecIn :=
  {| waypt_id := 2; norm_waypt_dist := 0; bot_pos := (3, 4); view7view := 1 |}.

(** The same for a robot at (3.3, 4.4), half a radius from Waypoint1. *)
Definition half_radius_input : CatchVecIn :=
  {| waypt_id := 2; norm_waypt_dist := 0.5; bot_pos := (3.3, 4.4);
     view7view := 1 |}.

(** ** Facts about the numeric helpers *)

Module NumFacts.
Import Num.

Lemma ltb_true a b : ltb a b = true <-> a < b.
Proof. unfold ltb; destruct (Rlt_dec a b); split; intros; auto; discriminate. Qed.

Lemma ltb_false a b : ltb a b = false <-> b <= a.
Proof.
  unfold ltb; destruct (Rlt_dec a b); split; intros; auto; try discriminate; lra.
Qed.

Lemma leb_true a b : leb a b = true <-> a <= b.
Proof. unfold leb; destruct (Rle_dec a b); split; intros; auto; discriminate. Qed.

Lemma leb_false a b : leb a b = false <-> b < a.
Proof.
  unfold leb; destruct (Rle_dec a b); split; intros; auto; try discriminate; lra.
Qed.

Lemma eqb_true a b : eqb a b = true <-> a = b.
Proof. unfold eqb; destruct (Req_dec_T a b); split; intros; auto; discriminate. Qed.

Lemma eqb_false a b : eqb a b = false <-> a <> b.
Proof.
  unfold eqb; destruct (Req_dec_T a b); split; intros; auto; try discriminate;
    contradiction.
Qed.

Lemma gtb_true a b : gtb a b = true <-> b < a.
Proof. apply ltb_true. Qed.

Lemma gtb_false a b : gtb a b = false <-> a <= b.
Proof. apply ltb_false. Qed.

Lemma geb_true a b : geb a b = true <-> b <= a.
Proof. apply leb_true. Qed.

Lemma geb_false a b : geb a b = false <-> a < b.
Proof. apply leb_false. Qed.

Lemma geb_negb_ltb a b : geb a b = negb (ltb a b).
Proof.
  destruct (ltb a b) eqn:E.
  - apply geb_false, ltb_true, E.
  - apply geb_true, ltb_false, E.
Qed.

(** Float literals of the source that denote integers. *)
Lemma lit_0 : 0.0 = 0.
Proof. lra. Qed.

Lemma lit_1 : 1.0 = 1.
Proof. lra. Qed.

Lemma lit_5 : 5.0 = 5.
Proof. lra. Qed.

Lemma truthy_false a : truthy a = false <-> a = 0.
Proof. unfold truthy; rewrite negb_false_iff; apply eqb_true. Qed.

Lemma truthy_true a : truthy a = true <-> a <> 0.
Proof. unfold truthy; rewrite negb_true_iff; apply eqb_false. Qed.

Lemma arctan2_pos_axis x : 0 < x -> arctan2 0 x = 0.
Proof.
  intros Hx; unfold arctan2.
  replace (ltb 0 x) with true by (symmetry; now apply ltb_true).
  unfold Rdiv; rewrite Rmult_0_l; apply atan_0.
Qed.

(** On the right half plane [arctan2] inverts the polar angle. *)
Lemma arctan2_polar a :
  - (PI / 2) < a < PI / 2 -> arctan2 (sin a) (cos a) = a.
Proof.
  intros Ha; unfold arctan2.
  assert (Hc : 0 < cos a) by (apply cos_gt_0; lra).
  replace (ltb 0 (cos a)) with true by (symmetry; now apply ltb_true).
  change (sin a / cos a) with (tan a).
  now apply atan_tan.
Qed.

Lemma norm2_polar a : norm2 (cos a, sin a) = 1.
Proof.
  unfold norm2, sum_sq; cbn [fst snd].
  replace (cos a * cos a + sin a * sin a) with 1.
  - apply sqrt_1.
  - generalize (sin2_cos2 a); unfold Rsqr; lra.
Qed.

End NumFacts.

(** ** Wheel speeds: the two thresholds *)

Lemma wheel_speeds_stop t x :
  Num.norm2 x < 0.05 -> update_wheel_speeds t x = (0, 0).
Proof.
  intros H; unfold update_wheel_speeds.
  apply NumFacts.ltb_true in H. now rewrite H.
Qed.

Lemma wheel_speeds_forward t x :
  0.05 <= Num.norm2 x ->
  -0.4 < Num.arctan2 (snd x) (fst x) < 0.4 ->
  update_wheel_speeds t x
  = (5 - Num.arctan2 (snd x) (fst x), 5 + Num.arctan2 (snd x) (fst x)).
Proof.
  intros H [H1 H2]; unfold update_wheel_speeds.
  apply NumFacts.ltb_false in H. rewrite H.
  apply NumFacts.ltb_true in H1, H2. rewrite H1, H2. cbn.
  f_equal; lra.
Qed.

Lemma wheel_speeds_rotate t x :
  0.05 <= Num.norm2 x ->
  Num.arctan2 (snd x) (fst x) <= -0.4 \/ 0.4 <= Num.arctan2 (snd x) (fst x) ->
  update_wheel_speeds t x
  = (-5 * Num.arctan2 (snd x) (fst x), 5 * Num.arctan2 (snd x) (fst x)).
Proof.
  intros H H'; unfold update_wheel_speeds.
  apply NumFacts.ltb_false in H. rewrite H.
  destruct H' as [H'|H']; apply NumFacts.ltb_false in H'; rewrite H';
    rewrite ?andb_false_r; cbn; f_equal; lra.
Qed.

Lemma norm2_on_axis a : 0 <= a -> Num.norm2 (a, 0) = a.
Proof.
  intros Ha; unfold Num.norm2, Num.sum_sq; cbn [fst snd].
  rewrite Rmult_0_l, Rplus_0_r. now apply sqrt_square.
Qed.

(** C1 (amended).  For every motion vector [x]: [update_wheel_speeds]
    returns (0,0) when |x| is strictly below 0.05; otherwise, with
    theta = atan2(x.y, x.x), it returns the forward pair
    (5 - theta, 5 + theta) when -0.4 < theta < 0.4 strictly, and the
    rotation pair (-5*theta, 5*theta) when theta <= -0.4 or 0.4 <= theta.
    Both boundaries (|x| = 0.05 and |theta| = 0.4) fall on the far side:
    length exactly 0.05 is not stopped, a heading error of exactly 0.4
    rotates. *)
Theorem update_wheel_speeds_regimes t x :
  let theta := Num.arctan2 (snd x) (fst x) in
  (Num.norm2 x < 0.05 -> update_wheel_speeds t x = (0, 0)) /\
  (0.05 <= Num.norm2 x -> -0.4 < theta < 0.4 ->
     update_wheel_speeds t x = (5 - theta, 5 + theta)) /\
  (0.05 <= Num.norm2 x -> theta <= -0.4 \/ 0.4 <= theta ->
     update_wheel_speeds t x = (-5 * theta, 5 * theta)).
Proof.
  intros theta; subst theta; repeat split.
  - apply wheel_speeds_stop.
  - apply wheel_speeds_forward.
  - apply wheel_speeds_rotate.
Qed.

(** A vector of length 1 along the heading: the forward regime. *)
Lemma update_wheel_speeds_regimes_witness :
  update_wheel_speeds 0 (1, 0)
  = (5 - Num.arctan2 0 1, 5 + Num.arctan2 0 1).
Proof.
  apply (update_wheel_speeds_regimes 0 (1, 0)); cbn [fst snd].
  - rewrite norm2_on_axis; lra.
  - rewrite NumFacts.arctan2_pos_axis; lra.
Defined.

(** C1 as stated fails at both boundaries: a vector of length exactly 0.05
    is not stopped (it drives forward), and a heading error of exactly
    0.4 rad rotates on the spot instead of driving forward. *)
Lemma update_wheel_speeds_boundaries_open :
  Num.norm2 (0.05, 0) = 0.05 /\
  update_wheel_speeds 0 (0.05, 0) = (5, 5) /\
  update_wheel_speeds 0 (0.05, 0) <> (0, 0) /\
  0.05 <= Num.norm2 (cos 0.4, sin 0.4) /\
  Num.arctan2 (sin 0.4) (cos 0.4) = 0.4 /\
  update_wheel_speeds 0 (cos 0.4, sin 0.4) = (-2, 2) /\
  update_wheel_speeds 0 (cos 0.4, sin 0.4) <> (5 - 0.4, 5 + 0.4).
Proof.
  assert (N1 : Num.norm2 (0.05, 0) = 0.05) by (apply norm2_on_axis; lra).
  assert (A1 : Num.arctan2 0 0.05 = 0) by (apply NumFacts.arctan2_pos_axis; lra).
  assert (R1 : update_wheel_speeds 0 (0.05, 0) = (5, 5)).
  { rewrite wheel_speeds_forward; cbn [fst snd]; rewrite ?A1, ?N1; try lra.
    f_equal; lra. }
  assert (N2 : Num.norm2 (cos 0.4, sin 0.4) = 1) by apply NumFacts.norm2_polar.
  assert (A2 : Num.arctan2 (sin 0.4) (cos 0.4) = 0.4).
  { apply NumFacts.arctan2_polar. generalize PI2_1; lra. }
  assert (R2 : update_wheel_speeds 0 (cos 0.4, sin 0.4) = (-2, 2)).
  { rewrite wheel_speeds_rotate; cbn [fst snd]; rewrite ?A2, ?N2; try lra.
    f_equal; lra. }
  repeat split; auto; try lra.
  - rewrite R1. intros E. injection E as E _. lra.
  - rewrite R2. intros E. injection E as E _. lra.
Qed.

(** ** Global vector *)

Lemma vec2_eq (a b : Num.vec2) : fst a = fst b -> snd a = snd b -> a = b.
Proof. destruct a, b; cbn; intros; subst; reflexivity. Qed.

Lemma vadd_vsub_cancel (a b : Num.vec2) : Num.vadd a (Num.vsub b a) = b.
Proof. apply vec2_eq; cbn; lra. Qed.

(** One evaluation with no displacement pending or active: the position
    delta is added to the global vector and the reference position becomes
    the observed one; the displacement fields are not touched. *)
Lemma update_global_vec_quiet t x m :
  _displaced m = false -> _t_displace m = None ->
  let (g, m') := update_global_vec t x m in
  g = Num.vadd (_global_vec m) (Num.vsub x (_bot_prev_pos m)) /\
  _global_vec m' = g /\
  _bot_prev_pos m' = x /\
  _displaced m' = false /\ _t_displace m' = None.
Proof.
  intros Hd Ht; unfold update_global_vec; rewrite Hd, Ht; cbn [negb andb].
  destruct (Num.truthy (fst (Num.vsub x (_bot_prev_pos m)))
            || Num.truthy (snd (Num.vsub x (_bot_prev_pos m)))) eqn:E.
  - cbn. repeat split; auto. apply vadd_vsub_cancel.
  - apply orb_false_iff in E. destruct E as [E1 E2].
    apply NumFacts.truthy_false in E1, E2. cbn in E1, E2.
    repeat split; auto; apply vec2_eq; cbn; lra.
Qed.

(** The deltas telescope. *)
Lemma vsum_pos_deltas prev xs k x :
  nth_error xs k = Some x ->
  vsum (firstn (S k) (pos_deltas prev xs)) = Num.vsub x prev.
Proof.
  revert prev k; induction xs as [|y ys IH]; intros prev k H.
  - destruct k; discriminate.
  - destruct k as [|k].
    + injection H as ->. cbn. apply vec2_eq; cbn; lra.
    + cbn in H. specialize (IH y k H).
      change (firstn (S (S k)) (pos_deltas prev (y :: ys)))
        with (Num.vsub y prev :: firstn (S k) (pos_deltas y ys)).
      unfold vsum in *; cbn [fold_right]. rewrite IH.
      apply vec2_eq; cbn; lra.
Qed.

Lemma run_global_vec_quiet evs : forall m k t x,
  _displaced m = false -> _t_displace m = None ->
  nth_error evs k = Some (t, x) ->
  nth_error (fst (run_global_vec evs m)) k
  = Some (Num.vadd (_global_vec m) (Num.vsub x (_bot_prev_pos m))).
Proof.
  induction evs as [|[t0 x0] rest IH]; intros m k t x Hd Ht Hk.
  - destruct k; discriminate.
  - cbn [run_global_vec].
    pose proof (update_global_vec_quiet t0 x0 m Hd Ht) as Q.
    destruct (update_global_vec t0 x0 m) as [g m'].
    destruct Q as (Hg & Hg' & Hp & Hd' & Ht').
    specialize (IH m').
    destruct (run_global_vec rest m') as [gs m''].
    destruct k as [|k].
    + injection Hk as <- <-. cbn. now rewrite Hg.
    + cbn in Hk |- *. cbn in IH. rewrite (IH k t x Hd' Ht' Hk).
      f_equal. rewrite Hg', Hp, Hg. apply vec2_eq; cbn; lra.
Qed.

(** C2.  Over any sequence of evaluations of the global-vector node that
    starts with no displacement pending or active (and none is notified in
    between), the [k]-th returned global vector is the initial global
    vector plus the sum of the observed position deltas up to [k]; that
    sum is the observed position minus the initial reference position;
    and the difference of the global vector between two ticks equals the
    difference of the observed positions. *)
Theorem global_vec_accumulates evs m :
  _displaced m = false -> _t_displace m = None ->
  let outs := fst (run_global_vec evs m) in
  let deltas := pos_deltas (_bot_prev_pos m) (map snd evs) in
  (forall k t x, nth_error evs k = Some (t, x) ->
     nth_error outs k
     = Some (Num.vadd (_global_vec m) (vsum (firstn (S k) deltas)))
     /\ vsum (firstn (S k) deltas) = Num.vsub x (_bot_prev_pos m)) /\
  (forall j k tj xj tk xk gj gk,
     nth_error evs j = Some (tj, xj) -> nth_error evs k = Some (tk, xk) ->
     nth_error outs j = Some gj -> nth_error outs k = Some gk ->
     Num.vsub gk gj = Num.vsub xk xj).
Proof.
  intros Hd Ht outs deltas.
  assert (S : forall k t x, nth_error evs k = Some (t, x) ->
              vsum (firstn (S k) deltas) = Num.vsub x (_bot_prev_pos m)).
  { intros k t x H. apply vsum_pos_deltas.
    rewrite nth_error_map, H. reflexivity. }
  split.
  - intros k t x H. split; [|eapply S; eauto].
    subst outs. rewrite (run_global_vec_quiet evs m k t x Hd Ht H).
    now rewrite (S k t x H).
  - intros j k tj xj tk xk gj gk Hj Hk Gj Gk. subst outs.
    rewrite (run_global_vec_quiet evs m j tj xj Hd Ht Hj) in Gj.
    rewrite (run_global_vec_quiet evs m k tk xk Hd Ht Hk) in Gk.
    injection Gj as <-. injection Gk as <-.
    apply vec2_eq; cbn; lra.
Qed.

(** Three ticks from the origin with initial global vector (1, 1). *)
Lemma global_vec_accumulates_witness :
  nth_error
    (fst (run_global_vec [(0, (1, 0)); (1, (1, 2)); (2, (3, 2))]
            (init_model (1, 1) (0, 0)))) 2
  = Some (Num.vadd (1, 1)
            (vsum (firstn 3 (pos_deltas (0, 0) [(1, 0); (1, 2); (3, 2)])))).
Proof.
  apply (global_vec_accumulates
           [(0, (1, 0)); (1, (1, 2)); (2, (3, 2))]
           (init_model (1, 1) (0, 0)) eq_refl eq_refl) with (t := 2) (x := (3, 2)).
  reflexivity.
Defined.

Lemma update_global_vec_frozen t x m :
  _displaced m = true \/ _t_displace m <> None ->
  update_global_vec t x m = (_global_vec m, set_bot_prev_pos x m).
Proof.
  intros H; unfold update_global_vec.
  destruct H as [H|H].
  - rewrite H. reflexivity.
  - destruct (_t_displace m); [|contradiction].
    rewrite andb_false_r. reflexivity.
Qed.

(** C7.  While a displacement is pending or active (the displaced flag is
    set, or the time of the last displacement is still stored), an
    evaluation of the global-vector node returns the global vector
    unchanged and writes nothing but the reference position, which becomes
    the observed position. *)
Theorem update_global_vec_displaced t x m :
  _displaced m = true \/ _t_displace m <> None ->
  update_global_vec t x m = (_global_vec m, set_bot_prev_pos x m).
Proof.
  intros H; unfold update_global_vec.
  destruct H as [H|H].
  - rewrite H. reflexivity.
  - destruct (_t_displace m); [|contradiction].
    rewrite andb_false_r. reflexivity.
Qed.

(** A teleport to (7, 7) right after [on_displace]: the jump is absorbed. *)
Lemma update_global_vec_displaced_witness :
  update_global_vec 0 (7, 7) (on_displace (init_model (1, 1) (0, 0)))
  = ((1, 1), set_bot_prev_pos (7, 7) (on_displace (init_model (1, 1) (0, 0)))).
Proof.
  apply (update_global_vec_displaced 0 (7, 7)
           (on_displace (init_model (1, 1) (0, 0)))).
  left; reflexivity.
Defined.

(** ** Displacement pulse *)

Lemma ascending_lower_bound t0 ts :
  ascending t0 ts -> Forall (fun t => t0 <= t) ts.
Proof.
  revert t0; induction ts as [|t rest IH]; intros t0 H; constructor.
  - apply H.
  - destruct H as [H1 H2]. specialize (IH t H2).
    eapply Forall_impl; [|exact IH]. cbn; intros; lra.
Qed.

(** With no displacement notified and no pulse running the node is silent
    and writes nothing. *)
Lemma run_displace_idle ts : forall m,
  _displaced m = false -> _t_displace m = None ->
  run_displace ts m = (map (fun _ => false) ts, m).
Proof.
  induction ts as [|t rest IH]; intros m Hd Ht; cbn [run_displace map].
  - reflexivity.
  - unfold update_displace; rewrite Hd, Ht.
    rewrite (IH m Hd Ht). reflexivity.
Qed.

(** While a pulse that started at [t0] is running, the output at time [t]
    is 1 exactly when [t < t0 + 0.1]. *)
Lemma run_displace_pulse ts : forall m t0 tprev,
  _displaced m = false -> _t_displace m = Some t0 ->
  ascending tprev ts ->
  fst (run_displace ts m) = map (fun t => Num.ltb t (t0 + 0.1)) ts.
Proof.
  induction ts as [|t rest IH]; intros m t0 tprev Hd Ht Hasc;
    cbn [run_displace map].
  - reflexivity.
  - destruct Hasc as [_ Hasc].
    unfold update_displace; rewrite Hd, Ht.
    destruct (Num.ltb t (t0 + 0.1)) eqn:E.
    + specialize (IH m t0 t Hd Ht Hasc).
      destruct (run_displace rest m) as [bs m'']. cbn in *. now rewrite IH.
    + rewrite run_displace_idle by (cbn; auto). cbn. f_equal.
      apply NumFacts.ltb_false in E.
      apply ascending_lower_bound in Hasc.
      apply map_ext_Forall. eapply Forall_impl; [|exact Hasc].
      cbn; intros a Ha. symmetry. apply NumFacts.ltb_false. lra.
Qed.

(** C9.  After [on_displace()], over any later evaluations of the
    displacement node at times [t0 :: ts] in logical-time order with no
    further [on_displace()]: the output at [t0] is 1 and the displaced
    flag is cleared there; the output at each later time [t] is 1 exactly
    when [t < t0 + 0.1]; so once the output is 0 it stays 0. *)
Theorem displace_one_shot m t0 ts :
  ascending t0 ts ->
  let outs := fst (run_displace (t0 :: ts) (on_displace m)) in
  outs = true :: map (fun t => Num.ltb t (t0 + 0.1)) ts /\
  _displaced (snd (update_displace t0 (on_displace m))) = false /\
  (forall i j, (1 <= i <= j)%nat ->
     nth i outs false = false -> nth j outs false = false).
Proof.
  intros Hasc outs.
  assert (E : outs = true :: map (fun t => Num.ltb t (t0 + 0.1)) ts).
  { subst outs. cbn [run_displace]. unfold update_displace, on_displace.
    cbn [_displaced set_displaced].
    pose proof (run_displace_pulse ts
                  (set_displaced false
                     (set_t_displace (Some t0) (set_displaced true m)))
                  t0 t0 eq_refl eq_refl Hasc) as P.
    destruct (run_displace ts _) as [bs m'']. cbn in *. now rewrite P. }
  split; [exact E|]. split; [reflexivity|].
  rewrite E. clear E outs.
  intros i j [Hi Hij].
  destruct i as [|i]; [lia|]. destruct j as [|j]; [lia|]. cbn [nth].
  assert (Hij' : (i <= j)%nat) by lia. clear Hi Hij.
  revert t0 i j Hij' Hasc.
  induction ts as [|t rest IH]; intros t0 i j Hij Hasc.
  - destruct i, j; reflexivity.
  - destruct i as [|i].
    + cbn [map nth]. intros Hf. apply NumFacts.ltb_false in Hf.
      destruct j as [|j]; [now apply NumFacts.ltb_false|]. cbn [nth].
      destruct Hasc as [_ Hasc]. apply ascending_lower_bound in Hasc.
      destruct (Nat.lt_ge_cases j (List.length rest)) as [Hj|Hj].
      * rewrite nth_indep with (d' := Num.ltb 0 (t0 + 0.1))
          by now rewrite length_map.
        rewrite map_nth with (f := fun t => Num.ltb t (t0 + 0.1)).
        apply NumFacts.ltb_false.
        rewrite Forall_forall in Hasc.
        specialize (Hasc (nth j rest 0) (nth_In _ _ Hj)). lra.
      * apply nth_overflow. now rewrite length_map.
    + destruct j as [|j]; [lia|]. cbn [map nth].
      intros Hf.
      destruct Hasc as [Ht Hasc].
      assert (Hasc' : ascending t0 rest).
      { destruct rest; cbn in *; [exact I|]. split; [lra|apply Hasc]. }
      apply (IH t0 i j); [lia|exact Hasc'|exact Hf].
Qed.

(** Evaluations at 0.5, 0.55, 0.6 and 0.7 after a notification. *)
Lemma displace_one_shot_witness :
  fst (run_displace [0.5; 0.55; 0.6; 0.7]
         (on_displace (init_model (0, 0) (0, 0))))
  = true :: map (fun t => Num.ltb t (0.5 + 0.1)) [0.55; 0.6; 0.7].
Proof.
  apply (displace_one_shot (init_model (0, 0) (0, 0)) 0.5 [0.55; 0.6; 0.7]).
  cbn; repeat split; lra.
Defined.

(** The outputs of that run, evaluated. *)
Lemma displace_pulse_example :
  fst (run_displace [0.5; 0.55; 0.6; 0.7]
         (on_displace (init_model (0, 0) (0, 0))))
  = [true; true; false; false].
Proof.
  cbn [run_displace]. unfold update_displace, on_displace.
  cbn [_displaced _t_displace set_displaced set_t_displace init_model].
  replace (Num.ltb 0.55 (0.5 + 0.1)) with true
    by (symmetry; apply NumFacts.ltb_true; lra).
  cbn [_displaced _t_displace set_displaced set_t_displace init_model].
  replace (Num.ltb 0.6 (0.5 + 0.1)) with false
    by (symmetry; apply NumFacts.ltb_false; lra).
  reflexivity.
Qed.

(** ** Setting the goal *)

Lemma mem_In name names : Str.mem name names = true <-> In name names.
Proof.
  unfold Str.mem. rewrite existsb_exists. split.
  - intros (n & Hn & E). apply String.eqb_eq in E. now subst.
  - intros H. exists name. split; [exact H|apply String.eqb_refl].
Qed.

Lemma mem_not_In name names : Str.mem name names = false <-> ~ In name names.
Proof.
  rewrite <- mem_In. destruct (Str.mem name names); split; intros H;
    congruence.
Qed.

Lemma is_current_true name (current : option string) :
  match current with
  | Some c => String.eqb name c
  | None => false
  end = true <-> current = Some name.
Proof.
  destruct current as [c|]; split; intros H; try discriminate.
  - apply String.eqb_eq in H. now subst.
  - injection H as ->. apply String.eqb_refl.
Qed.

Lemma is_current_false name (current : option string) :
  match current with
  | Some c => String.eqb name c
  | None => false
  end = false <-> current <> Some name.
Proof.
  rewrite <- is_current_true.
  destruct (match current with Some c => String.eqb name c | None => false end);
    split; intros H; congruence.
Qed.

Lemma set_goal_unknown_state sc goal_name m :
  ~ In goal_name (goals_names sc) ->
  _goal_name m <> Some goal_name ->
  set_goal sc goal_name m = (Raise ValueError, m).
Proof.
  intros Hin Hcur; unfold set_goal.
  apply is_current_false in Hcur. rewrite Hcur.
  apply mem_not_In in Hin. rewrite Hin. reflexivity.
Qed.

Lemma set_goal_current_state sc goal_name m :
  _goal_name m = Some goal_name -> set_goal sc goal_name m = (Ok tt, m).
Proof.
  intros Hcur. unfold set_goal. apply is_current_true in Hcur.
  now rewrite Hcur.
Qed.

(** C4.  [set_goal] with a name that is not among the scene's goals and is
    not the currently applied goal raises ValueError and leaves the whole
    controller state as it was. *)
Theorem set_goal_unknown sc goal_name m :
  ~ In goal_name (goals_names sc) ->
  _goal_name m <> Some goal_name ->
  set_goal sc goal_name m = (Raise ValueError, m).
Proof.
  intros Hin Hcur; unfold set_goal.
  apply is_current_false in Hcur. rewrite Hcur.
  apply mem_not_In in Hin. rewrite Hin. reflexivity.
Qed.

(** C5.  [set_goal] with the currently applied goal returns normally and
    leaves the whole controller state as it was; issuing it again changes
    nothing either. *)
Theorem set_goal_current sc goal_name m :
  _goal_name m = Some goal_name ->
  set_goal sc goal_name m = (Ok tt, m) /\
  set_goal sc goal_name (snd (set_goal sc goal_name m)) = (Ok tt, m).
Proof.
  intros Hcur.
  assert (E : set_goal sc goal_name m = (Ok tt, m)).
  { unfold set_goal. apply is_current_true in Hcur. now rewrite Hcur. }
  rewrite E. cbn [snd]. split; [reflexivity|exact E].
Qed.

(** A [set_goal] that passes both tests writes the pending goal and
    clears the goal-reached flag. *)
Lemma set_goal_new sc goal_name m :
  In goal_name (goals_names sc) ->
  _goal_name m <> Some goal_name ->
  set_goal sc goal_name m
  = (Ok tt, set_goal_reached false (set_new_goal_name (Some goal_name) m)).
Proof.
  intros Hin Hcur; unfold set_goal.
  apply is_current_false in Hcur. rewrite Hcur.
  apply mem_In in Hin. rewrite Hin. reflexivity.
Qed.

(** ** Goal detection *)

(** On a qualifying input the node runs its timer. *)
Lemma goal_detect_qualifying env t x m :
  qualifying env x = true ->
  update_goal_detect env t x m
  = match _t_goal_reached m with
    | None => (Ok (_goal_reached m), set_t_goal_reached (Some t) m)
    | Some t_goal_reached =>
        if Num.ltb (t_goal_reached + 0.2) t
        then (Ok true, set_goal_reached true (set_t_goal_reached None m))
        else (Ok (_goal_reached m), m)
    end.
Proof.
  unfold qualifying, update_goal_detect.
  destruct (Num.np_max _) as [gm|]; [|discriminate].
  destruct (Num.argmax _) as [g|]; [|discriminate].
  destruct (Num.np_max _) as [rm|]; [|discriminate].
  destruct (Num.argmax _) as [r|]; [|discriminate].
  rewrite !NumFacts.geb_negb_ltb.
  destruct (Num.ltb gm 0.45); [discriminate|].
  destruct (Num.ltb rm 0.45); [discriminate|].
  destruct (g =? 0)%nat; [discriminate|]. cbn [negb andb].
  destruct (nth_error (goals_names (scene env)) (g - 1)); [|discriminate].
  destruct (nth_error (keys (routepts_vocab env)) r); [|discriminate].
  intros ->. reflexivity.
Qed.

(** On any other input the node either raises, writing nothing, or clears
    the timer and returns the stored flag. *)
Lemma goal_detect_not_qualifying env t x m :
  qualifying env x = false ->
  (exists e, update_goal_detect env t x m = (Raise e, m)) \/
  update_goal_detect env t x m
  = (Ok (_goal_reached m), set_t_goal_reached None m).
Proof.
  unfold qualifying, update_goal_detect.
  destruct (Num.np_max _) as [gm|]; [|left; eexists; reflexivity].
  destruct (Num.argmax _) as [g|]; [|left; eexists; reflexivity].
  rewrite !NumFacts.geb_negb_ltb.
  destruct (Num.ltb gm 0.45); [right; reflexivity|].
  destruct (Num.np_max _) as [rm|];
    [|left; eexists; reflexivity].
  destruct (Num.argmax _) as [r|]; [|left; eexists; reflexivity].
  rewrite NumFacts.geb_negb_ltb.
  destruct (Num.ltb rm 0.45); [right; reflexivity|].
  destruct (g =? 0)%nat; [right; reflexivity|]. cbn [negb andb].
  destruct (nth_error (goals_names (scene env)) (g - 1));
    [|left; eexists; reflexivity].
  destruct (nth_error (keys (routepts_vocab env)) r);
    [|left; eexists; reflexivity].
  intros ->. right; reflexivity.
Qed.

(** The node never clears the flag. *)
Lemma goal_detect_keeps_flag env t x m :
  _goal_reached m = true ->
  _goal_reached (snd (update_goal_detect env t x m)) = true /\
  forall b, fst (update_goal_detect env t x m) = Ok b -> b = true.
Proof.
  intros Hf.
  destruct (qualifying env x) eqn:Q.
  - rewrite (goal_detect_qualifying env t x m Q).
    destruct (_t_goal_reached m) as [t0|].
    + destruct (Num.ltb (t0 + 0.2) t); cbn; split; auto; intros b [= <-]; auto.
    + cbn; split; auto; intros b [= <-]; auto.
  - destruct (goal_detect_not_qualifying env t x m Q) as [[e ->]| ->]; cbn.
    + split; auto. discriminate.
    + split; auto. intros b [= <-]; auto.
Qed.

(** Where a raised flag comes from: either the timer was already running
    when the run started and every evaluation up to the raising one
    qualified, or some qualifying evaluation inside the run started the
    timer and every evaluation from it to the raising one qualified. *)
Lemma debounce_history env evs : forall m,
  _goal_reached m = false ->
  _goal_reached (run_goal_detect env evs m) = true ->
  (exists t0 mid t1 x1 post,
      _t_goal_reached m = Some t0 /\
      evs = mid ++ (t1, x1) :: post /\
      Forall (fun e => qualifying env (snd e) = true) (mid ++ [(t1, x1)]) /\
      t0 + 0.2 < t1) \/
  (exists pre t0 x0 mid t1 x1 post,
      evs = pre ++ (t0, x0) :: mid ++ (t1, x1) :: post /\
      Forall (fun e => qualifying env (snd e) = true)
             ((t0, x0) :: mid ++ [(t1, x1)]) /\
      t0 + 0.2 < t1).
Proof.
  induction evs as [|[t x] rest IH]; intros m Hf Hr.
  - cbn in Hr. congruence.
  - cbn [run_goal_detect] in Hr.
    destruct (qualifying env x) eqn:Q.
    + rewrite (goal_detect_qualifying env t x m Q) in Hr.
      destruct (_t_goal_reached m) as [t0|] eqn:Ht.
      * destruct (Num.ltb (t0 + 0.2) t) eqn:L.
        -- left. exists t0, [], t, x, rest.
           apply NumFacts.ltb_true in L.
           split; [reflexivity|]. split; [reflexivity|].
           split; [|exact L]. constructor; auto.
        -- destruct (IH m Hf Hr)
             as [(t0' & mid & t1 & x1 & post & Ht' & E & F & L')
                |(pre & t0' & x0 & mid & t1 & x1 & post & E & F & L')].
           ++ left. rewrite Ht in Ht'. injection Ht' as <-.
              exists t0, ((t, x) :: mid), t1, x1, post.
              split; [reflexivity|]. split; [now rewrite E|].
              split; [|exact L']. cbn. constructor; auto.
           ++ right. exists ((t, x) :: pre), t0', x0, mid, t1, x1, post.
              split; [now rewrite E|]. split; assumption.
      * destruct (IH (set_t_goal_reached (Some t) m) Hf Hr)
          as [(t0' & mid & t1 & x1 & post & Ht' & E & F & L')
             |(pre & t0' & x0 & mid & t1 & x1 & post & E & F & L')].
        -- right. cbn in Ht'. injection Ht' as <-.
           exists [], t, x, mid, t1, x1, post.
           split; [now rewrite E|]. split; [|exact L'].
           constructor; auto.
        -- right. exists ((t, x) :: pre), t0', x0, mid, t1, x1, post.
           split; [now rewrite E|]. split; assumption.
    + destruct (goal_detect_not_qualifying env t x m Q) as [[e E]|E];
        rewrite E in Hr.
      * congruence.
      * destruct (IH (set_t_goal_reached None m) Hf Hr)
          as [(t0' & mid & t1 & x1 & post & Ht' & E' & F & L')
             |(pre & t0' & x0 & mid & t1 & x1 & post & E' & F & L')].
        -- cbn in Ht'. discriminate.
        -- right. exists ((t, x) :: pre), t0', x0, mid, t1, x1, post.
           split; [now rewrite E'|]. split; assumption.
Qed.

(** C3.  Starting with the flag down and no timer running, the
    goal-reached flag is up after a run of evaluations of the
    goal-detection node only if the run contains a stretch of consecutive
    evaluations, all qualifying, whose last one comes more than 0.2 s after
    its first one.  An evaluation that does not qualify (and returns)
    clears the timer and leaves the flag as it was.  A qualifying
    evaluation followed by one that does not qualify leaves the flag
    down. *)
Theorem goal_reached_debounced env :
  (forall evs m,
     _goal_reached m = false -> _t_goal_reached m = None ->
     _goal_reached (run_goal_detect env evs m) = true ->
     exists pre t0 x0 mid t1 x1 post,
       evs = pre ++ (t0, x0) :: mid ++ (t1, x1) :: post /\
       Forall (fun e => qualifying env (snd e) = true)
              ((t0, x0) :: mid ++ [(t1, x1)]) /\
       t0 + 0.2 < t1) /\
  (forall t x m b m',
     qualifying env x = false ->
     update_goal_detect env t x m = (Ok b, m') ->
     _t_goal_reached m' = None /\ _goal_reached m' = _goal_reached m
     /\ b = _goal_reached m) /\
  (forall t1 x1 t2 x2 m,
     _goal_reached m = false -> _t_goal_reached m = None ->
     qualifying env x1 = true -> qualifying env x2 = false ->
     _goal_reached (run_goal_detect env [(t1, x1); (t2, x2)] m) = false).
Proof.
  split; [|split].
  - intros evs m Hf Ht Hr.
    destruct (debounce_history env evs m Hf Hr)
      as [(t0' & mid & t1 & x1 & post & Ht' & _)|H]; [congruence|exact H].
  - intros t x m b m' Q E.
    destruct (goal_detect_not_qualifying env t x m Q) as [[e E']|E'];
      rewrite E' in E; [discriminate|].
    injection E as <- <-. cbn. auto.
  - intros t1 x1 t2 x2 m Hf Ht Q1 Q2. cbn [run_goal_detect].
    rewrite (goal_detect_qualifying env t1 x1 m Q1), Ht.
    destruct (goal_detect_not_qualifying env t2 x2
                (set_t_goal_reached (Some t1) m) Q2) as [[e ->]| ->];
      cbn; exact Hf.
Qed.

(** ** The goal-reached flag latches *)

Lemma exec_clears_flag env o m :
  _goal_reached m = true ->
  _goal_reached (exec env o m) = false ->
  exists goal_name,
    o = SetGoal goal_name /\
    _goal_name m <> Some goal_name /\
    In goal_name (goals_names (scene env)).
Proof.
  intros Hf Hc. destruct o as [name| |t x|t|t x|t x]; cbn [exec] in Hc.
  - exists name. split; [reflexivity|].
    unfold set_goal in Hc.
    destruct (match _goal_name m with
              | Some c => String.eqb name c
              | None => false
              end) eqn:C; [cbn in Hc; congruence|].
    destruct (Str.mem name (goals_names (scene env))) eqn:M;
      [|cbn in Hc; congruence].
    split; [now apply is_current_false|now apply mem_In].
  - cbn in Hc. congruence.
  - unfold update_global_vec in Hc.
    destruct (negb (_displaced m) && _); [|cbn in Hc; congruence].
    destruct (Num.truthy _ || Num.truthy _); cbn in Hc; congruence.
  - unfold update_displace in Hc.
    destruct (_displaced m); [cbn in Hc; congruence|].
    destruct (_t_displace m) as [t0|]; [|cbn in Hc; congruence].
    destruct (Num.ltb t (t0 + 0.1)); cbn in Hc; congruence.
  - unfold update_goal_input in Hc.
    destruct (_new_goal_name m) as [n|].
    + destruct (vocab_get _ _ _); cbn in Hc; congruence.
    + destruct (_t_new_goal m) as [t0|]; [|cbn in Hc; congruence].
      destruct (Num.ltb t (t0 + 0.1)); cbn in Hc; congruence.
  - destruct (goal_detect_keeps_flag env t x m Hf) as [K _]. congruence.
Qed.

(** C10.  Once the goal-reached flag is up, every evaluation of the
    goal-detection node keeps it up and, when it returns, returns true,
    whatever its input.  Among all operations that write the controller
    state, the only one after which the flag is down is a [set_goal] with
    a name of the scene's goals that is not the current goal; such a call
    does clear it. *)
Theorem goal_reached_latches env m :
  _goal_reached m = true ->
  (forall t x,
     _goal_reached (snd (update_goal_detect env t x m)) = true /\
     forall b, fst (update_goal_detect env t x m) = Ok b -> b = true) /\
  (forall o,
     _goal_reached (exec env o m) = false <->
     exists goal_name,
       o = SetGoal goal_name /\
       _goal_name m <> Some goal_name /\
       In goal_name (goals_names (scene env))).
Proof.
  intros Hf. split.
  - intros t x. now apply goal_detect_keeps_flag.
  - intros o. split.
    + now apply exec_clears_flag.
    + intros (name & -> & Hcur & Hin). cbn [exec].
      now rewrite (set_goal_new (scene env) name m Hin Hcur).
Qed.

(** ** Catchment vector *)

Lemma catch_vec_off env t x :
  norm_waypt_dist x <= 0 \/ view7view x <= catch_vec_thres (params env) ->
  update_catch_vec env t x = Ok ((0, 0), 0).
Proof.
  intros H; unfold update_catch_vec; rewrite NumFacts.lit_0.
  destruct H as [H|H]; apply NumFacts.gtb_false in H; rewrite H;
    rewrite ?andb_false_r; reflexivity.
Qed.

(** The normaliser the node divides by is the sum of the absolute values
    of the components. *)
Lemma catch_vec_on env t x waypt_pos :
  0 < norm_waypt_dist x ->
  catch_vec_thres (params env) < view7view x ->
  Num.np_index (waypts_pos (scene env)) (Num.int_of_float (waypt_id x))
  = Some waypt_pos ->
  let c := Num.vsub waypt_pos (bot_pos x) in
  update_catch_vec env t x
  = Ok ((fst c / (Rabs (fst c) + Rabs (snd c)),
         snd c / (Rabs (fst c) + Rabs (snd c))),
        Rmin ((1 - norm_waypt_dist x) / (1 - catch_vec_core (params env))) 1).
Proof.
  intros Hd Hv Hw c; unfold update_catch_vec.
  rewrite NumFacts.lit_0, !NumFacts.lit_1.
  apply NumFacts.gtb_true in Hd, Hv. rewrite Hd, Hv, Hw. cbn [andb].
  fold c. rewrite <- !Rsqr_def, !sqrt_Rsqr_abs.
  reflexivity.
Qed.

(** C6 (amended).  An evaluation of the catchment-vector node whose
    normalized distance is strictly positive and whose view-match
    confidence exceeds the threshold, for a robot that is not at the
    waypoint, returns a positive multiple of the vector from the robot
    position to the waypoint, together with the gain
    min((1 - d/radius)/(1 - core), 1).  Every evaluation with normalized
    distance at most 0 (the waypoint centre, or no waypoint in range) or
    with confidence at most the threshold returns the zero vector with
    zero gain. *)
Theorem update_catch_vec_direction_and_gain env t x :
  (forall waypt_pos,
     0 < norm_waypt_dist x ->
     catch_vec_thres (params env) < view7view x ->
     Num.np_index (waypts_pos (scene env)) (Num.int_of_float (waypt_id x))
     = Some waypt_pos ->
     waypt_pos <> bot_pos x ->
     exists k, 0 < k /\
       update_catch_vec env t x
       = Ok ((k * fst (Num.vsub waypt_pos (bot_pos x)),
              k * snd (Num.vsub waypt_pos (bot_pos x))),
             Rmin ((1 - norm_waypt_dist x)
                   / (1 - catch_vec_core (params env))) 1)) /\
  (norm_waypt_dist x <= 0 \/ view7view x <= catch_vec_thres (params env) ->
   update_catch_vec env t x = Ok ((0, 0), 0)).
Proof.
  split; [|apply catch_vec_off].
  intros w Hd Hv Hw Hne.
  set (c := Num.vsub w (bot_pos x)).
  assert (Hn : 0 < Rabs (fst c) + Rabs (snd c)).
  { destruct (Req_dec (fst c) 0) as [E1|E1].
    - destruct (Req_dec (snd c) 0) as [E2|E2].
      + exfalso. apply Hne. subst c. cbn in E1, E2.
        apply vec2_eq; lra.
      + generalize (Rabs_pos (fst c)) (Rabs_pos_lt _ E2); lra.
    - generalize (Rabs_pos (snd c)) (Rabs_pos_lt _ E1); lra. }
  exists (/ (Rabs (fst c) + Rabs (snd c))). split.
  - now apply Rinv_0_lt_compat.
  - rewrite (catch_vec_on env t x w Hd Hv Hw). fold c.
    unfold Rdiv. do 2 f_equal. f_equal; apply Rmult_comm.
Qed.

(** ** Parameter validation *)

Lemma fold_left_Rmin_spec r : forall a,
  (fold_left Rmin r a = a \/ In (fold_left Rmin r a) r) /\
  fold_left Rmin r a <= a /\
  (forall d, In d r -> fold_left Rmin r a <= d).
Proof.
  induction r as [|b r IH]; intros a; cbn [fold_left].
  - repeat split; [now left|lra|intros d []].
  - destruct (IH (Rmin a b)) as (Hin & Hle & Hall).
    pose proof (Rmin_l a b) as Hl. pose proof (Rmin_r a b) as Hr.
    repeat split.
    + destruct Hin as [Hin|Hin].
      * rewrite Hin. unfold Rmin. destruct (Rle_dec a b); [now left|].
        right; now left.
      * right; now right.
    + lra.
    + intros d [<-|Hd]; [lra|now apply Hall].
Qed.

Lemma np_min_spec l m :
  Num.np_min l = Some m -> In m l /\ forall d, In d l -> m <= d.
Proof.
  destruct l as [|a r]; [discriminate|]. cbn [Num.np_min].
  intros [= <-]. destruct (fold_left_Rmin_spec r a) as (Hin & Hle & Hall).
  split.
  - destruct Hin as [->|Hin]; [now left|now right].
  - intros d [<-|Hd]; [exact Hle|now apply Hall].
Qed.

Lemma np_min_none l : Num.np_min l = None <-> l = [].
Proof. destruct l; cbn; split; intros; congruence. Qed.

(** The generator ranges over the pairs of waypoints at distinct
    indices. *)
Lemma pairs_square_dists_In ps : forall d,
  In d (pairs_square_dists ps) <->
  exists i j a b,
    (i < j)%nat /\ nth_error ps i = Some a /\ nth_error ps j = Some b /\
    d = Num.sum_sq (Num.vsub a b).
Proof.
  induction ps as [|a0 rest IH]; intros d; cbn [pairs_square_dists].
  - split; [intros []|].
    intros (i & j & a & b & _ & Hi & _). destruct i; discriminate.
  - rewrite in_app_iff, in_map_iff, IH. split.
    + intros [(b & <- & Hb)|(i & j & a & b & Hij & Hi & Hj & ->)].
      * apply In_nth_error in Hb. destruct Hb as [j Hj].
        exists 0%nat, (S j), a0, b. repeat split; auto. lia.
      * exists (S i), (S j), a, b. repeat split; auto. lia.
    + intros (i & j & a & b & Hij & Hi & Hj & ->).
      destruct j as [|j]; [lia|]. cbn in Hj.
      destruct i as [|i].
      * injection Hi as <-. left. exists b. split; [reflexivity|].
        eapply nth_error_In; eauto.
      * right. exists i, j, a, b. repeat split; auto. lia.
Qed.

Lemma pairs_square_dists_nil ps :
  pairs_square_dists ps = [] <-> (List.length ps < 2)%nat.
Proof.
  destruct ps as [|a [|b rest]]; cbn; split; intros H;
    try reflexivity; try lia; try discriminate.
Qed.

Lemma list_snoc_cases {A : Type} (l : list A) :
  l = [] \/ exists init w, l = init ++ [w].
Proof.
  destruct l as [|a r]; [now left|right].
  destruct (exists_last (l := a :: r)) as (init & w & E); [discriminate|].
  eauto.
Qed.

Lemma np_index_last {A : Type} (init : list A) (w : A) :
  Num.np_index (init ++ [w]) (-1) = Some w.
Proof.
  unfold Num.np_index. rewrite length_app. cbn [List.length].
  replace (0 <=? -1)%Z with false by reflexivity.
  replace (- Z.of_nat (List.length init + 1) <=? -1)%Z with true
    by (symmetry; apply Z.leb_le; lia).
  replace (Z.to_nat (Z.of_nat (List.length init + 1) + -1))
    with (List.length init) by lia.
  rewrite nth_error_app2 by lia. now rewrite Nat.sub_diag.
Qed.

Lemma np_index_last_nil {A : Type} : Num.np_index (@nil A) (-1) = None.
Proof. reflexivity. Qed.

(** The loop over the routes raises exactly when some route is empty or
    ends with a name that is not a goal. *)
Lemma validate_routes_raises sc routes : forall r,
  raised (validate_routes sc r routes) = true <->
  exists route,
    In route routes /\
    (route = [] \/ exists init w, route = init ++ [w] /\ ~ In w (goals_names sc)).
Proof.
  induction routes as [|route rest IH]; intros r; cbn [validate_routes].
  - split; [discriminate|]. intros (route & [] & _).
  - destruct (list_snoc_cases route) as [->|(init & w & ->)].
    + rewrite np_index_last_nil. cbn. split; [|reflexivity].
      intros _. exists []. split; [now left|now left].
    + rewrite np_index_last.
      destruct (Str.mem w (goals_names sc)) eqn:M.
      * rewrite IH. split.
        -- intros (route & Hin & H). exists route. split; [now right|exact H].
        -- intros (route & [<-|Hin] & H).
           ++ exfalso. destruct H as [H|(init' & w' & E & Hn)].
              ** now destruct init.
              ** apply app_inj_tail in E. destruct E as [_ <-].
                 apply Hn. now apply mem_In.
           ++ exists route. split; assumption.
      * split.
        -- intros _. exists (init ++ [w]). split; [now left|right].
           exists init, w. split; [reflexivity|now apply mem_not_In].
        -- intros _. destruct (nth_error (routes_names sc) r); reflexivity.
Qed.

Lemma unprobeable_nonempty names :
  unprobeable names <> [] <->
  exists n, In n names /\ ~ In n probeable.
Proof.
  unfold unprobeable. split.
  - intros H. destruct (filter _ names) as [|n l] eqn:E; [congruence|].
    assert (Hn : In n (filter (fun n => negb (Str.mem n probeable)) names))
      by (rewrite E; now left).
    apply filter_In in Hn. destruct Hn as [Hn Hm].
    exists n. split; [exact Hn|].
    apply mem_not_In. now apply negb_true_iff.
  - intros (n & Hn & Hp) E.
    assert (Hf : In n (filter (fun n => negb (Str.mem n probeable)) names)).
    { apply filter_In. split; [exact Hn|].
      apply negb_true_iff. now apply mem_not_In. }
    rewrite E in Hf. exact Hf.
Qed.

(** With at least one pair of waypoints, the radius test fails exactly
    when some pair is too close. *)
Lemma radius_check p sc m :
  Num.np_min (pairs_square_dists (waypts_pos sc)) = Some m ->
  Num.ltb (catch_area_radius p) (sqrt m / 2) = false <->
  radius_too_large p sc.
Proof.
  intros Hm. apply np_min_spec in Hm. destruct Hm as [Hin Hall].
  rewrite NumFacts.ltb_false. split.
  - intros Hle. apply pairs_square_dists_In in Hin.
    destruct Hin as (i & j & a & b & Hij & Hi & Hj & ->).
    exists i, j, a, b. repeat split; auto.
    unfold Num.norm2. lra.
  - intros (i & j & a & b & Hij & Hi & Hj & Hn).
    assert (Hd : In (Num.sum_sq (Num.vsub a b))
                    (pairs_square_dists (waypts_pos sc))).
    { apply pairs_square_dists_In. exists i, j, a, b. auto. }
    apply Hall in Hd. apply sqrt_le_1_alt in Hd.
    unfold Num.norm2 in Hn. lra.
Qed.

Lemma reserved_goal_name_check sc :
  existsb (fun goal_name => String.eqb (Str.upper goal_name) "NONE")
          (goals_names sc) = true <->
  reserved_goal_name sc.
Proof.
  unfold reserved_goal_name. rewrite existsb_exists.
  split; intros (g & Hg & E); exists g; split; auto;
    now apply String.eqb_eq.
Qed.

(** C8 (amended).  [validate_params] raises if and only if: there are
    fewer than 2 goals; or some goal name is NONE up to case; or the
    catchment radius is not strictly less than half the distance between
    some two distinct waypoints; or the core fraction is at least 1; or
    there are no routes; or some route ends with a name that is not a
    goal; or some requested signal name is not probeable; or there are
    fewer than two waypoint positions; or some route is empty.  Otherwise
    it returns normally. *)
Theorem validate_params_raises_iff p sc :
  raised (validate_params p sc) = true <->
  listed_failure p sc \/
  (List.length (waypts_pos sc) < 2)%nat \/
  In [] (routes_waypts_names sc).
Proof.
  unfold validate_params, listed_failure.
  destruct (negb (2 <=? List.length (goals_names sc))%nat) eqn:C1.
  { split; [intros _|reflexivity]. left; left.
    apply negb_true_iff, Nat.leb_gt in C1. exact C1. }
  apply negb_false_iff, Nat.leb_le in C1.
  destruct (existsb _ (goals_names sc)) eqn:C2.
  { split; [intros _|reflexivity]. left; right; left.
    now apply reserved_goal_name_check. }
  destruct (Num.np_min (pairs_square_dists (waypts_pos sc))) as [m|] eqn:C3.
  2:{ split; [intros _|reflexivity]. right; left.
      now apply pairs_square_dists_nil, np_min_none. }
  cbv zeta.
  destruct (Num.ltb (catch_area_radius p) (sqrt m / 2)) eqn:C4; cbn [negb].
  2:{ split; [intros _|reflexivity]. left; right; right; left.
      now apply (radius_check p sc m C3). }
  rewrite NumFacts.lit_1.
  destruct (Num.ltb (catch_vec_core p) 1) eqn:C5; cbn [negb].
  2:{ split; [intros _|reflexivity]. left; do 3 right; left.
      now apply NumFacts.ltb_false. }
  destruct (negb (1 <=? List.length (routes_names sc))%nat) eqn:C6.
  { split; [intros _|reflexivity]. left; do 4 right; left.
    apply negb_true_iff, Nat.leb_gt in C6. unfold no_routes. lia. }
  apply negb_false_iff, Nat.leb_le in C6.
  pose proof (validate_routes_raises sc (routes_waypts_names sc) 0%nat) as VR.
  destruct (validate_routes sc 0 (routes_waypts_names sc)) as [[]|e] eqn:C7.
  2:{ split; [intros _|reflexivity].
      destruct VR as [VR _]. destruct (VR eq_refl) as (route & Hin & H).
      destruct H as [->|(init & w & -> & Hn)].
      - right; right. exact Hin.
      - left; do 5 right; left. exists (init ++ [w]), init, w. auto. }
  assert (Hsaved :
    raised (match saved_data p with
            | None => Ok tt
            | Some names =>
                match unprobeable names with
                | [] => Ok tt
                | _ :: _ => Raise ValueError
                end
            end) = true <-> unprobeable_requested p).
  { unfold unprobeable_requested. destruct (saved_data p) as [names|].
    - pose proof (unprobeable_nonempty names) as U.
      destruct (unprobeable names) as [|n l]; cbn [raised].
      + split; [discriminate|]. intros (names' & n & [= <-] & Hn & Hp).
        exfalso. apply U; eauto.
      + split; [intros _|reflexivity].
        destruct U as [U _]. destruct U as (n' & Hn & Hp); [discriminate|].
        exists names, n'. auto.
    - cbn. split; [discriminate|]. intros (names & n & E & _). discriminate. }
  rewrite Hsaved. split.
  - intros H. left; do 6 right. exact H.
  - intros [H|[H|H]].
    + destruct H as [H|[H|[H|[H|[H|[H|H]]]]]].
      * unfold too_few_goals in H. lia.
      * apply reserved_goal_name_check in H. congruence.
      * apply (radius_check p sc m C3) in H. congruence.
      * unfold core_too_large in H. apply NumFacts.ltb_true in C5. lra.
      * unfold no_routes in H. lia.
      * destruct H as (route & init & w & Hin & -> & Hn).
        destruct VR as [_ VR]. cbn in VR. discriminate VR.
        exists (init ++ [w]). split; [exact Hin|right; eauto].
      * exact H.
    + apply pairs_square_dists_nil in H. rewrite H in C3. discriminate.
    + destruct VR as [_ VR]. cbn in VR. discriminate VR.
      exists []. split; [exact H|now left].
Qed.

(** ** Which operation writes which field *)

(** Only the global-vector node writes the global vector and the
    reference position. *)
Lemma exec_global_vec_frame env o m :
  (forall t x, o <> UpdateGlobalVec t x) ->
  _global_vec (exec env o m) = _global_vec m /\
  _bot_prev_pos (exec env o m) = _bot_prev_pos m.
Proof.
  intros Ho. destruct o as [name| |t x|t|t x|t x]; cbn [exec].
  - unfold set_goal.
    destruct (match _goal_name m with Some c => _ | None => _ end);
      [split; reflexivity|].
    destruct (negb _); split; reflexivity.
  - split; reflexivity.
  - exfalso. now apply (Ho t x).
  - unfold update_displace. destruct (_displaced m); [split; reflexivity|].
    destruct (_t_displace m) as [t0|]; [|split; reflexivity].
    destruct (Num.ltb t (t0 + 0.1)); split; reflexivity.
  - unfold update_goal_input. destruct (_new_goal_name m).
    + destruct (vocab_get _ _ _); split; reflexivity.
    + destruct (_t_new_goal m) as [t0|]; [|split; reflexivity].
      destruct (Num.ltb t (t0 + 0.1)); split; reflexivity.
  - destruct (qualifying env x) eqn:Q.
    + rewrite (goal_detect_qualifying env t x m Q).
      destruct (_t_goal_reached m) as [t0|]; [|split; reflexivity].
      destruct (Num.ltb (t0 + 0.2) t); split; reflexivity.
    + destruct (goal_detect_not_qualifying env t x m Q) as [[e ->]| ->];
        split; reflexivity.
Qed.

(** Only [on_displace] and the displacement node write the displacement
    flag and the stored displacement time. *)
Lemma exec_displace_frame env o m :
  o <> OnDisplace -> (forall t, o <> UpdateDisplace t) ->
  _displaced (exec env o m) = _displaced m /\
  _t_displace (exec env o m) = _t_displace m.
Proof.
  intros Ho1 Ho2. destruct o as [name| |t x|t|t x|t x]; cbn [exec].
  - unfold set_goal.
    destruct (match _goal_name m with Some c => _ | None => _ end);
      [split; reflexivity|].
    destruct (negb _); split; reflexivity.
  - contradiction.
  - unfold update_global_vec.
    destruct (negb (_displaced m) && _); [|split; reflexivity].
    destruct (Num.truthy _ || Num.truthy _); split; reflexivity.
  - exfalso. now apply (Ho2 t).
  - unfold update_goal_input. destruct (_new_goal_name m).
    + destruct (vocab_get _ _ _); split; reflexivity.
    + destruct (_t_new_goal m) as [t0|]; [|split; reflexivity].
      destruct (Num.ltb t (t0 + 0.1)); split; reflexivity.
  - destruct (qualifying env x) eqn:Q.
    + rewrite (goal_detect_qualifying env t x m Q).
      destruct (_t_goal_reached m) as [t0|]; [|split; reflexivity].
      destruct (Num.ltb (t0 + 0.2) t); split; reflexivity.
    + destruct (goal_detect_not_qualifying env t x m Q) as [[e ->]| ->];
        split; reflexivity.
Qed.

(** Only the goal-detection node writes the debounce timer. *)
Lemma exec_goal_timer_frame env o m :
  (forall t x, o <> UpdateGoalDetect t x) ->
  _t_goal_reached (exec env o m) = _t_goal_reached m.
Proof.
  intros Ho. destruct o as [name| |t x|t|t x|t x]; cbn [exec].
  - unfold set_goal.
    destruct (match _goal_name m with Some c => _ | None => _ end);
      [reflexivity|].
    destruct (negb _); reflexivity.
  - reflexivity.
  - unfold update_global_vec.
    destruct (negb (_displaced m) && _); [|reflexivity].
    destruct (Num.truthy _ || Num.truthy _); reflexivity.
  - unfold update_displace. destruct (_displaced m); [reflexivity|].
    destruct (_t_displace m) as [t0|]; [|reflexivity].
    destruct (Num.ltb t (t0 + 0.1)); reflexivity.
  - unfold update_goal_input. destruct (_new_goal_name m).
    + destruct (vocab_get _ _ _); reflexivity.
    + destruct (_t_new_goal m) as [t0|]; [|reflexivity].
      destruct (Num.ltb t (t0 + 0.1)); reflexivity.
  - exfalso. now apply (Ho t x).
Qed.

(** X20.  Over any sequence of operations on the controller state that
    contains no [set_goal], a raised goal-reached flag stays raised. *)
Lemma latch_without_set_goal env ops : forall m,
  (forall name, ~ In (SetGoal name) ops) ->
  _goal_reached m = true ->
  _goal_reached (exec_all env ops m) = true.
Proof.
  unfold exec_all.
  induction ops as [|o rest IH]; intros m Hno Hf; cbn [fold_left].
  - exact Hf.
  - apply IH.
    + intros name Hin. apply (Hno name). now right.
    + destruct (_goal_reached (exec env o m)) eqn:E; [reflexivity|].
      destruct (exec_clears_flag env o m Hf E) as (name & -> & _).
      exfalso. apply (Hno name). now left.
Qed.

(** ** Examples on the concrete scenes *)

Ltac decide_Rmin_Rmax :=
  repeat match goal with
         | |- context [Rmax ?a ?b] =>
             first [ rewrite (Rmax_left a b) by lra
                   | rewrite (Rmax_right a b) by lra ]
         | |- context [Rmin ?a ?b] =>
             first [ rewrite (Rmin_left a b) by lra
                   | rewrite (Rmin_right a b) by lra ]
         end.

Ltac decide_ltb :=
  repeat match goal with
         | |- context [Num.ltb ?a ?b] =>
             first
               [ replace (Num.ltb a b) with true
                   by (symmetry; apply NumFacts.ltb_true; lra)
               | replace (Num.ltb a b) with false
                   by (symmetry; apply NumFacts.ltb_false; lra) ]
         end.

Lemma similarity_goal_part :
  similarity (firstn 3 at_goal_input) (goals_vocab example_env) = [0; 0; 1].
Proof.
  unfold similarity; cbn.
  repeat (apply f_equal2; [lra|]). reflexivity.
Qed.

Lemma similarity_at_goal_routept_part :
  similarity (firstn 3 (skipn 3 at_goal_input)) (routepts_vocab example_env)
  = [0; 0; 1].
Proof.
  unfold similarity; cbn.
  repeat (apply f_equal2; [lra|]). reflexivity.
Qed.

Lemma similarity_on_route_routept_part :
  similarity (firstn 3 (skipn 3 on_route_input)) (routepts_vocab example_env)
  = [0; 1; 0].
Proof.
  unfold similarity; cbn.
  repeat (apply f_equal2; [lra|]). reflexivity.
Qed.

Lemma np_max_001 : Num.np_max [0; 0; 1] = Some 1.
Proof. cbn. decide_Rmin_Rmax. reflexivity. Qed.

Lemma np_max_010 : Num.np_max [0; 1; 0] = Some 1.
Proof. cbn. decide_Rmin_Rmax. reflexivity. Qed.

Lemma argmax_001 : Num.argmax [0; 0; 1] = Some 2%nat.
Proof. cbn. decide_ltb. reflexivity. Qed.

Lemma argmax_010 : Num.argmax [0; 1; 0] = Some 1%nat.
Proof. cbn. decide_ltb. reflexivity. Qed.

Lemma at_goal_input_qualifying : qualifying example_env at_goal_input = true.
Proof.
  unfold qualifying. change (sp_dim (params example_env)) with 3%nat.
  rewrite similarity_goal_part, similarity_at_goal_routept_part.
  rewrite np_max_001, argmax_001.
  replace (Num.geb 1 0.45) with true
    by (symmetry; apply NumFacts.geb_true; lra).
  reflexivity.
Qed.

Lemma on_route_input_not_qualifying :
  qualifying example_env on_route_input = false.
Proof.
  unfold qualifying. change (sp_dim (params example_env)) with 3%nat.
  change (firstn 3 on_route_input) with (firstn 3 at_goal_input).
  rewrite similarity_goal_part, similarity_on_route_routept_part.
  rewrite np_max_001, argmax_001, np_max_010, argmax_010.
  replace (Num.geb 1 0.45) with true
    by (symmetry; apply NumFacts.geb_true; lra).
  reflexivity.
Qed.

(** A hold of 0.19 s does not raise the flag, a hold of 0.21 s does. *)
Lemma debounce_boundary :
  _goal_reached
    (run_goal_detect example_env
       [(0, at_goal_input); (0.19, at_goal_input)]
       (init_model (0, 0) (0, 0))) = false /\
  _goal_reached
    (run_goal_detect example_env
       [(0, at_goal_input); (0.21, at_goal_input)]
       (init_model (0, 0) (0, 0))) = true.
Proof.
  cbn [run_goal_detect].
  repeat (rewrite (goal_detect_qualifying example_env _ _ _
                     at_goal_input_qualifying);
          cbn [_t_goal_reached init_model set_t_goal_reached]).
  decide_ltb. split; reflexivity.
Qed.

(** One qualifying evaluation followed by one on the route. *)
Lemma goal_reached_debounced_witness :
  _goal_reached
    (run_goal_detect example_env
       [(0, at_goal_input); (0.001, on_route_input)]
       (init_model (0, 0) (0, 0))) = false.
Proof.
  apply (goal_reached_debounced example_env).
  - reflexivity.
  - reflexivity.
  - exact at_goal_input_qualifying.
  - exact on_route_input_not_qualifying.
Defined.

(** Feed2 is not a goal of the scene and no goal is applied yet. *)
Lemma set_goal_unknown_witness :
  set_goal two_goal_scene "Feed2" (init_model (0, 0) (0, 0))
  = (Raise ValueError, init_model (0, 0) (0, 0)).
Proof.
  apply (set_goal_unknown two_goal_scene "Feed2" (init_model (0, 0) (0, 0))).
  - cbn. intros [H|[H|[]]]; discriminate.
  - cbn. discriminate.
Defined.

(** Feed1 set again while it is the current goal. *)
Lemma set_goal_current_witness :
  set_goal two_goal_scene "Feed1" arrived_model = (Ok tt, arrived_model) /\
  set_goal two_goal_scene "Feed1"
    (snd (set_goal two_goal_scene "Feed1" arrived_model))
  = (Ok tt, arrived_model).
Proof.
  apply (set_goal_current two_goal_scene "Feed1" arrived_model).
  reflexivity.
Defined.

(** The latch on the controller that has arrived at Feed1. *)
Lemma goal_reached_latches_witness :
  (forall t x,
     _goal_reached (snd (update_goal_detect example_env t x arrived_model))
     = true /\
     forall b,
       fst (update_goal_detect example_env t x arrived_model) = Ok b ->
       b = true) /\
  (forall o,
     _goal_reached (exec example_env o arrived_model) = false <->
     exists goal_name,
       o = SetGoal goal_name /\
       _goal_name arrived_model <> Some goal_name /\
       In goal_name (goals_names (scene example_env))).
Proof.
  apply (goal_reached_latches example_env arrived_model).
  reflexivity.
Defined.

(** After arrival at Feed1, setting the goal Nest clears the flag, and
    setting Feed1 again does not. *)
Lemma latch_cleared_by_new_goal :
  _goal_reached (exec example_env (SetGoal "Nest") arrived_model) = false /\
  _goal_reached (exec example_env (SetGoal "Feed1") arrived_model) = true.
Proof. split; reflexivity. Qed.

(** At Waypoint1 the catchment-area node reports waypoint 2 at normalized
    distance 0: the robot is in range. *)
Lemma catch_area_at_centre :
  update_catch_area example_env 0 (3, 4) = Ok (2, 0).
Proof.
  unfold update_catch_area. cbn [map waypts_pos scene example_env two_goal_scene].
  unfold Num.sum_sq, Num.vsub; cbn [fst snd Num.np_min Num.argmin fold_left
                                    Num.argmin_from].
  decide_Rmin_Rmax. decide_ltb.
  replace ((3 - 3) * (3 - 3) + (4 - 4) * (4 - 4)) with 0 by lra.
  rewrite sqrt_0. cbn [params example_env example_params catch_area_radius].
  decide_ltb. cbn [INR]. f_equal. f_equal; lra.
Qed.

Lemma int_of_float_2 : Num.int_of_float 2 = 2%Z.
Proof.
  unfold Num.int_of_float.
  replace (Num.leb 0 2) with true by (symmetry; apply NumFacts.leb_true; lra).
  apply ZfloorZ.
Qed.

Lemma catch_vec_half_radius :
  update_catch_vec example_env 0 half_radius_input
  = Ok ((- (3 / 7), - (4 / 7)), 5 / 8).
Proof.
  rewrite (catch_vec_on example_env 0 half_radius_input (3, 4)).
  - cbn [Num.vsub fst snd bot_pos half_radius_input norm_waypt_dist
         params example_env example_params catch_vec_core].
    replace (Rabs (3 - 3.3)) with 0.3 by (rewrite Rabs_left; lra).
    replace (Rabs (4 - 4.4)) with 0.4 by (rewrite Rabs_left; lra).
    replace ((1 - 0.5) / (1 - 0.2)) with (5 / 8) by lra.
    decide_Rmin_Rmax. do 2 f_equal. f_equal; lra.
  - cbn; lra.
  - cbn; lra.
  - cbn [waypt_id half_radius_input]. rewrite int_of_float_2. reflexivity.
Qed.

(** The zero output at the waypoint centre. *)
Lemma update_catch_vec_direction_and_gain_witness :
  update_catch_vec example_env 0 at_centre_input = Ok ((0, 0), 0).
Proof.
  apply (update_catch_vec_direction_and_gain example_env 0 at_centre_input).
  left. cbn. lra.
Defined.

(** C6 as stated fails.  At the centre of Waypoint1, in range and with
    full confidence, the node returns the zero vector with gain 0, where
    the stated gain is 1.  Half a radius away the returned vector has
    Euclidean norm 5/7, not 1. *)
Lemma update_catch_vec_not_unit_homing :
  update_catch_area example_env 0 (3, 4) = Ok (2, 0) /\
  update_catch_vec example_env 0 at_centre_input = Ok ((0, 0), 0) /\
  Rmin ((1 - norm_waypt_dist at_centre_input)
        / (1 - catch_vec_core (params example_env))) 1 = 1 /\
  update_catch_vec example_env 0 half_radius_input
  = Ok ((- (3 / 7), - (4 / 7)), 5 / 8) /\
  Num.norm2 (- (3 / 7), - (4 / 7)) = 5 / 7 /\
  Num.norm2 (- (3 / 7), - (4 / 7)) <> 1.
Proof.
  assert (N : Num.norm2 (- (3 / 7), - (4 / 7)) = 5 / 7).
  { unfold Num.norm2, Num.sum_sq; cbn [fst snd].
    replace (- (3 / 7) * - (3 / 7) + - (4 / 7) * - (4 / 7))
      with ((5 / 7) * (5 / 7)) by lra.
    apply sqrt_square. lra. }
  split; [exact catch_area_at_centre|].
  split; [apply catch_vec_off; left; cbn; lra|].
  split.
  { cbn [norm_waypt_dist at_centre_input params example_env example_params
         catch_vec_core].
    rewrite Rmin_right; [reflexivity|].
    apply Rmult_le_reg_r with (r := 1 - 0.2); [lra|].
    unfold Rdiv. rewrite Rmult_assoc, Rinv_l; lra. }
  split; [exact catch_vec_half_radius|].
  split; [exact N|]. rewrite N. lra.
Qed.

Lemma two_goal_scene_min_square_dist :
  Num.np_min (pairs_square_dists (waypts_pos two_goal_scene)) = Some 25.
Proof.
  cbn [waypts_pos two_goal_scene pairs_square_dists map app Num.np_min
       fold_left].
  unfold Num.sum_sq, Num.vsub; cbn [fst snd].
  decide_Rmin_Rmax. f_equal. lra.
Qed.

(** The scene of two goals and one route passes validation. *)
Lemma validate_params_two_goal_scene :
  validate_params example_params two_goal_scene = Ok tt.
Proof.
  unfold validate_params.
  rewrite two_goal_scene_min_square_dist.
  replace 25 with (5 * 5) by lra. rewrite sqrt_square by lra.
  cbn [goals_names two_goal_scene List.length Nat.leb negb existsb].
  replace (Str.upper "Nest" =? "NONE")%string with false by reflexivity.
  replace (Str.upper "Feed1" =? "NONE")%string with false by reflexivity.
  cbn [orb catch_area_radius catch_vec_core example_params].
  decide_ltb. reflexivity.
Qed.

(** C8 as stated fails.  With two goals, a route between them and a single
    waypoint position, [validate_params] raises (the minimum over no pair
    of waypoints is undefined) although none of the listed conditions
    holds. *)
Lemma validate_params_lone_waypt :
  validate_params example_params lone_waypt_scene = Raise ValueError /\
  ~ listed_failure example_params lone_waypt_scene.
Proof.
  split; [reflexivity|].
  intros [H|[H|[H|[H|[H|[H|H]]]]]].
  - unfold too_few_goals in H. cbn in H. lia.
  - destruct H as (g & Hin & E).
    cbn in Hin. destruct Hin as [<-|[<-|[]]]; cbn in E; discriminate.
  - destruct H as (i & j & a & b & Hij & _ & Hj & _).
    destruct j as [|j]; [lia|]. destruct j; discriminate.
  - unfold core_too_large in H. cbn in H. lra.
  - discriminate.
  - destruct H as (route & init & w & Hin & E & Hn).
    cbn in Hin. destruct Hin as [<-|[]].
    change (["Nest"%string; "Feed1"%string])
      with (["Nest"%string] ++ ["Feed1"%string]) in E.
    apply app_inj_tail in E. destruct E as [_ <-].
    apply Hn. cbn. auto.
  - destruct H as (names & n & E & _). discriminate.
Qed.

Lemma dummy_scene_min_square_dist :
  Num.np_min (pairs_square_dists (waypts_pos dummy_scene)) = Some 6.25.
Proof.
  cbn [waypts_pos dummy_scene pairs_square_dists map app Num.np_min
       fold_left].
  unfold Num.sum_sq, Num.vsub; cbn [fst snd].
  decide_Rmin_Rmax. f_equal. lra.
Qed.

(** The scene of dummyscene.py passes validation under the parameters of
    the multiple-goals experiment. *)
Lemma validate_params_dummy_scene :
  validate_params multiple_goals_params dummy_scene = Ok tt.
Proof.
  unfold validate_params.
  rewrite dummy_scene_min_square_dist.
  replace 6.25 with (2.5 * 2.5) by lra. rewrite sqrt_square by lra.
  cbn [goals_names dummy_scene List.length Nat.leb negb existsb].
  replace (Str.upper "Nest" =? "NONE")%string with false by reflexivity.
  replace (Str.upper "Feed1" =? "NONE")%string with false by reflexivity.
  cbn [orb catch_area_radius catch_vec_core multiple_goals_params].
  decide_ltb.
  cbn [negb routes_names List.length Nat.leb].
  replace (validate_routes dummy_scene 0 (routes_waypts_names dummy_scene))
    with (@Ok unit tt) by reflexivity.
  cbn [saved_data multiple_goals_params].
  match goal with
  | |- context [unprobeable ?names] =>
      replace (unprobeable names) with (@nil string) by reflexivity
  end.
  reflexivity.
Qed.

(** ** Catchment area: the nearest waypoint *)

Lemma argmin_from_spec r : forall i bi best pre,
  List.length pre = i -> nth_error pre bi = Some best ->
  nth_error (pre ++ r) (Num.argmin_from r i bi best)
  = Some (fold_left Rmin r best).
Proof.
  induction r as [|a r IH]; intros i bi best pre Hlen Hbi;
    cbn [Num.argmin_from fold_left].
  - rewrite app_nil_r. exact Hbi.
  - replace (pre ++ a :: r) with ((pre ++ [a]) ++ r)
      by (rewrite <- app_assoc; reflexivity).
    destruct (Num.ltb a best) eqn:E.
    + apply NumFacts.ltb_true in E. rewrite Rmin_right by lra.
      apply IH.
      * rewrite length_app. cbn. lia.
      * rewrite nth_error_app2 by lia. rewrite Hlen, Nat.sub_diag.
        reflexivity.
    + apply NumFacts.ltb_false in E. rewrite Rmin_left by lra.
      apply IH.
      * rewrite length_app. cbn. lia.
      * rewrite nth_error_app1; [exact Hbi|].
        apply nth_error_Some. congruence.
Qed.

Lemma argmin_np_min l j m :
  Num.argmin l = Some j -> Num.np_min l = Some m -> nth_error l j = Some m.
Proof.
  destruct l as [|a r]; [discriminate|]. cbn [Num.argmin Num.np_min].
  intros [= <-] [= <-].
  apply (argmin_from_spec r 1 0 a [a]); reflexivity.
Qed.

Lemma argmax_from_spec r : forall i bi best pre,
  List.length pre = i -> nth_error pre bi = Some best ->
  nth_error (pre ++ r) (Num.argmax_from r i bi best)
  = Some (fold_left Rmax r best).
Proof.
  induction r as [|a r IH]; intros i bi best pre Hlen Hbi;
    cbn [Num.argmax_from fold_left].
  - rewrite app_nil_r. exact Hbi.
  - replace (pre ++ a :: r) with ((pre ++ [a]) ++ r)
      by (rewrite <- app_assoc; reflexivity).
    destruct (Num.ltb best a) eqn:E.
    + apply NumFacts.ltb_true in E. rewrite Rmax_right by lra.
      apply IH.
      * rewrite length_app. cbn. lia.
      * rewrite nth_error_app2 by lia. rewrite Hlen, Nat.sub_diag.
        reflexivity.
    + apply NumFacts.ltb_false in E. rewrite Rmax_left by lra.
      apply IH.
      * rewrite length_app. cbn. lia.
      * rewrite nth_error_app1; [exact Hbi|].
        apply nth_error_Some. congruence.
Qed.

Lemma argmax_bound l j : Num.argmax l = Some j -> (j < List.length l)%nat.
Proof.
  destruct l as [|a r]; [discriminate|]. cbn [Num.argmax].
  intros [= <-]. apply nth_error_Some.
  change (a :: r) with ([a] ++ r).
  rewrite (argmax_from_spec r 1 0 a [a]) by reflexivity. discriminate.
Qed.

Lemma int_of_float_INR w : Num.int_of_float (INR w) = Z.of_nat w.
Proof.
  unfold Num.int_of_float.
  replace (Num.leb 0 (INR w)) with true
    by (symmetry; apply NumFacts.leb_true, pos_INR).
  rewrite INR_IZR_INZ. apply ZfloorZ.
Qed.

Lemma np_index_of_nat {A : Type} (l : list A) (w : nat) :
  Num.np_index l (Z.of_nat w) = nth_error l w.
Proof.
  unfold Num.np_index.
  replace (0 <=? Z.of_nat w)%Z with true by (symmetry; apply Z.leb_le; lia).
  now rewrite Nat2Z.id.
Qed.

(** What the catchment-area node returns, case by case. *)
Lemma update_catch_area_cases env t x :
  (update_catch_area env t x = Raise ValueError /\
   waypts_pos (scene env) = []) \/
  (update_catch_area env t x = Ok (-1, -1) /\
   waypts_pos (scene env) <> [] /\
   forall p, In p (waypts_pos (scene env)) ->
     catch_area_radius (params env) <= Num.norm2 (Num.vsub p x)) \/
  (exists w p,
     update_catch_area env t x
     = Ok (INR w, Num.norm2 (Num.vsub p x) / catch_area_radius (params env)) /\
     nth_error (waypts_pos (scene env)) w = Some p /\
     Num.norm2 (Num.vsub p x) < catch_area_radius (params env) /\
     forall q, In q (waypts_pos (scene env)) ->
       Num.norm2 (Num.vsub p x) <= Num.norm2 (Num.vsub q x)).
Proof.
  unfold update_catch_area.
  set (ds := map (fun pos => Num.sum_sq (Num.vsub pos x))
                 (waypts_pos (scene env))).
  destruct (Num.np_min ds) as [m|] eqn:Hm.
  - destruct (Num.argmin ds) as [w|] eqn:Hw.
    2:{ destruct ds; discriminate. }
    pose proof (argmin_np_min ds w m Hw Hm) as Hnth.
    destruct (np_min_spec ds m Hm) as [_ Hall].
    subst ds. rewrite nth_error_map in Hnth.
    destruct (nth_error (waypts_pos (scene env)) w) as [p|] eqn:Hp;
      [|discriminate].
    cbn in Hnth. injection Hnth as Hpm.
    assert (Hnear : forall q, In q (waypts_pos (scene env)) ->
                      sqrt m <= Num.norm2 (Num.vsub q x)).
    { intros q Hq. unfold Num.norm2. apply sqrt_le_1_alt, Hall.
      apply in_map_iff. exists q. auto. }
    destruct (Num.ltb (sqrt m) (catch_area_radius (params env))) eqn:E.
    + right; right. exists w, p. apply NumFacts.ltb_true in E.
      unfold Num.norm2 at 1 2. rewrite Hpm.
      repeat split; auto.
      intros q Hq. unfold Num.norm2 at 1. rewrite Hpm. now apply Hnear.
    + right; left. apply NumFacts.ltb_false in E. split; [|split].
      * do 2 f_equal; lra.
      * intros Hnil. rewrite Hnil in Hp. destruct w; discriminate.
      * intros q Hq. specialize (Hnear q Hq). lra.
  - left. apply np_min_none in Hm. subst ds.
    apply map_eq_nil in Hm. rewrite Hm. split; reflexivity.
Qed.

(** X1.  The catchment-area node raises only for a scene without
    waypoints.  Otherwise it returns (-1, -1) when every waypoint is at
    least a radius away, and else the index of a waypoint nearest to the
    robot together with its distance divided by the radius, which for a
    positive radius lies in [0, 1). *)
Theorem update_catch_area_nearest env t x :
  0 < catch_area_radius (params env) ->
  (update_catch_area env t x = Raise ValueError /\
   waypts_pos (scene env) = []) \/
  (update_catch_area env t x = Ok (-1, -1) /\
   waypts_pos (scene env) <> [] /\
   forall p, In p (waypts_pos (scene env)) ->
     catch_area_radius (params env) <= Num.norm2 (Num.vsub p x)) \/
  (exists w p,
     update_catch_area env t x
     = Ok (INR w, Num.norm2 (Num.vsub p x) / catch_area_radius (params env)) /\
     nth_error (waypts_pos (scene env)) w = Some p /\
     0 <= Num.norm2 (Num.vsub p x) / catch_area_radius (params env) < 1 /\
     forall q, In q (waypts_pos (scene env)) ->
       Num.norm2 (Num.vsub p x) <= Num.norm2 (Num.vsub q x)).
Proof.
  intros Hr.
  destruct (update_catch_area_cases env t x)
    as [H|[H|(w & p & E & Hp & Hlt & Hnear)]]; [now left|now right; left|].
  right; right. exists w, p. repeat split; auto.
  - apply Rmult_le_pos; [apply sqrt_pos|].
    left. now apply Rinv_0_lt_compat.
  - apply Rmult_lt_reg_r with (r := catch_area_radius (params env)); [exact Hr|].
    unfold Rdiv. rewrite Rmult_assoc, Rinv_l by lra. lra.
Qed.

(** The robot at (3, 4) in the example scene. *)
Lemma update_catch_area_nearest_witness :
  (update_catch_area example_env 0 (3, 4) = Raise ValueError /\
   waypts_pos (scene example_env) = []) \/
  (update_catch_area example_env 0 (3, 4) = Ok (-1, -1) /\
   waypts_pos (scene example_env) <> [] /\
   forall p, In p (waypts_pos (scene example_env)) ->
     catch_area_radius (params example_env) <= Num.norm2 (Num.vsub p (3, 4))) \/
  (exists w p,
     update_catch_area example_env 0 (3, 4)
     = Ok (INR w, Num.norm2 (Num.vsub p (3, 4))
                  / catch_area_radius (params example_env)) /\
     nth_error (waypts_pos (scene example_env)) w = Some p /\
     0 <= Num.norm2 (Num.vsub p (3, 4))
          / catch_area_radius (params example_env) < 1 /\
     forall q, In q (waypts_pos (scene example_env)) ->
       Num.norm2 (Num.vsub p (3, 4)) <= Num.norm2 (Num.vsub q (3, 4))).
Proof.
  apply (update_catch_area_nearest example_env 0 (3, 4)).
  cbn. lra.
Defined.

(** ** Catchment vector: composition with the catchment area, gain, length *)

(** X2.  Fed with the output of the catchment-area node for the same robot
    position, the catchment-vector node never raises, whatever the
    view-match confidence: it returns either the zero vector with zero
    gain, or the vector from the robot to a nearest waypoint divided by
    the sum of the absolute values of its components, with the gain
    min((1 - d)/(1 - core), 1). *)
Theorem update_catch_vec_after_catch_area env t x v a d :
  update_catch_area env t x = Ok (a, d) ->
  let inp := {| waypt_id := a; norm_waypt_dist := d; bot_pos := x;
                view7view := v |} in
  update_catch_vec env t inp = Ok ((0, 0), 0) \/
  exists w p,
    nth_error (waypts_pos (scene env)) w = Some p /\
    (forall q, In q (waypts_pos (scene env)) ->
       Num.norm2 (Num.vsub p x) <= Num.norm2 (Num.vsub q x)) /\
    update_catch_vec env t inp
    = Ok ((fst (Num.vsub p x)
           / (Rabs (fst (Num.vsub p x)) + Rabs (snd (Num.vsub p x))),
           snd (Num.vsub p x)
           / (Rabs (fst (Num.vsub p x)) + Rabs (snd (Num.vsub p x)))),
          Rmin ((1 - d) / (1 - catch_vec_core (params env))) 1).
Proof.
  intros Hca inp.
  destruct (Rle_dec d 0) as [Hd|Hd].
  { left. apply catch_vec_off. left. exact Hd. }
  destruct (Rle_dec v (catch_vec_thres (params env))) as [Hv|Hv].
  { left. apply catch_vec_off. right. exact Hv. }
  destruct (update_catch_area_cases env t x)
    as [[E _]|[[E _]|(w & p & E & Hp & Hlt & Hnear)]];
    rewrite E in Hca; try discriminate.
  - injection Hca as <- <-. exfalso. lra.
  - injection Hca as <- <-. right. exists w, p.
    split; [exact Hp|]. split; [exact Hnear|].
    apply (catch_vec_on env t inp p).
    + cbn. lra.
    + cbn. lra.
    + cbn [waypt_id inp]. rewrite int_of_float_INR, np_index_of_nat.
      exact Hp.
Qed.

(** The robot at Waypoint1, with full confidence. *)
Lemma update_catch_vec_after_catch_area_witness :
  let inp := {| waypt_id := 2; norm_waypt_dist := 0; bot_pos := (3, 4);
                view7view := 1 |} in
  update_catch_vec example_env 0 inp = Ok ((0, 0), 0) \/
  exists w p,
    nth_error (waypts_pos (scene example_env)) w = Some p /\
    (forall q, In q (waypts_pos (scene example_env)) ->
       Num.norm2 (Num.vsub p (3, 4)) <= Num.norm2 (Num.vsub q (3, 4))) /\
    update_catch_vec example_env 0 inp
    = Ok ((fst (Num.vsub p (3, 4))
           / (Rabs (fst (Num.vsub p (3, 4))) + Rabs (snd (Num.vsub p (3, 4)))),
           snd (Num.vsub p (3, 4))
           / (Rabs (fst (Num.vsub p (3, 4))) + Rabs (snd (Num.vsub p (3, 4))))),
          Rmin ((1 - 0) / (1 - catch_vec_core (params example_env))) 1).
Proof.
  apply (update_catch_vec_after_catch_area example_env 0 (3, 4) 1 2 0).
  exact catch_area_at_centre.
Defined.

(** X3.  When the catchment-vector node is active (normalized distance
    [d] with [0 < d < 1], confidence above the threshold) and the core
    fraction is below 1, its gain lies in (0, 1], and it is 1 exactly when
    [d] is within the core fraction. *)
Theorem update_catch_vec_gain_range env t x out gain :
  catch_vec_core (params env) < 1 ->
  0 < norm_waypt_dist x < 1 ->
  catch_vec_thres (params env) < view7view x ->
  update_catch_vec env t x = Ok (out, gain) ->
  0 < gain <= 1 /\
  (gain = 1 <-> norm_waypt_dist x <= catch_vec_core (params env)).
Proof.
  intros Hc [Hd0 Hd1] Hv E.
  destruct (Num.np_index (waypts_pos (scene env))
              (Num.int_of_float (waypt_id x))) as [p|] eqn:Hp.
  2:{ unfold update_catch_vec in E. rewrite NumFacts.lit_0 in E.
      apply NumFacts.gtb_true in Hd0, Hv. rewrite Hd0, Hv, Hp in E.
      discriminate. }
  rewrite (catch_vec_on env t x p Hd0 Hv Hp) in E.
  injection E as _ <-.
  set (c := catch_vec_core (params env)) in *.
  set (d := norm_waypt_dist x) in *.
  assert (Hk : 0 < / (1 - c)) by (apply Rinv_0_lt_compat; lra).
  assert (Hkc : / (1 - c) * (1 - c) = 1) by (apply Rinv_l; lra).
  unfold Rdiv.
  assert (Hq : 0 < (1 - d) * / (1 - c)) by (apply Rmult_lt_0_compat; lra).
  destruct (Rle_dec d c) as [Hdc|Hdc].
  - assert (1 <= (1 - d) * / (1 - c)) by nra.
    rewrite Rmin_right by lra. split; [lra|]. split; auto.
  - assert ((1 - d) * / (1 - c) < 1) by nra.
    rewrite Rmin_left by lra. split; [lra|]. split; intros; lra.
Qed.

Lemma update_catch_vec_gain_range_witness :
  0 < 5 / 8 <= 1 /\
  (5 / 8 = 1 <->
   norm_waypt_dist half_radius_input <= catch_vec_core (params example_env)).
Proof.
  apply (update_catch_vec_gain_range example_env 0 half_radius_input
           (- (3 / 7), - (4 / 7)) (5 / 8)).
  - cbn. lra.
  - cbn. lra.
  - cbn. lra.
  - exact catch_vec_half_radius.
Defined.

(** X4.  When the catchment-vector node is active for a robot that is not
    at the waypoint, the absolute values of the two components of the
    returned vector sum to 1; its Euclidean length is therefore at most 1,
    and its square at least 1/2. *)
Theorem update_catch_vec_length env t x waypt_pos vx vy gain :
  0 < norm_waypt_dist x ->
  catch_vec_thres (params env) < view7view x ->
  Num.np_index (waypts_pos (scene env)) (Num.int_of_float (waypt_id x))
  = Some waypt_pos ->
  waypt_pos <> bot_pos x ->
  update_catch_vec env t x = Ok ((vx, vy), gain) ->
  Rabs vx + Rabs vy = 1 /\
  Num.norm2 (vx, vy) <= 1 /\
  1 / 2 <= Num.sum_sq (vx, vy).
Proof.
  intros Hd Hv Hp Hne E.
  rewrite (catch_vec_on env t x waypt_pos Hd Hv Hp) in E.
  injection E as <- <- _.
  set (c := Num.vsub waypt_pos (bot_pos x)).
  set (n := Rabs (fst c) + Rabs (snd c)).
  assert (Hn : 0 < n).
  { subst n. destruct (Req_dec (fst c) 0) as [E1|E1].
    - destruct (Req_dec (snd c) 0) as [E2|E2].
      + exfalso. apply Hne. subst c. cbn in E1, E2. apply vec2_eq; lra.
      + generalize (Rabs_pos (fst c)) (Rabs_pos_lt _ E2); lra.
    - generalize (Rabs_pos (snd c)) (Rabs_pos_lt _ E1); lra. }
  assert (L1 : Rabs (fst c / n) + Rabs (snd c / n) = 1).
  { unfold Rdiv. rewrite !Rabs_mult, (Rabs_right (/ n)).
    - rewrite <- Rmult_plus_distr_r. fold n. apply Rinv_r. lra.
    - left. now apply Rinv_0_lt_compat. }
  split; [exact L1|].
  set (a := fst c / n) in *. set (b := snd c / n) in *.
  pose proof (Rabs_pos a) as Ha. pose proof (Rabs_pos b) as Hb.
  assert (Sq : Num.sum_sq (a, b) = Rabs a * Rabs a + Rabs b * Rabs b).
  { unfold Num.sum_sq; cbn [fst snd].
    rewrite <- !Rsqr_def, <- !Rsqr_abs. reflexivity. }
  assert (Hle : Num.sum_sq (a, b) <= 1) by (rewrite Sq; nra).
  split.
  - unfold Num.norm2.
    apply Rle_trans with (r2 := sqrt 1); [now apply sqrt_le_1_alt|].
    rewrite sqrt_1. lra.
  - assert (Hge : 1 / 2 <= Num.sum_sq (a, b)).
    { rewrite Sq. pose proof (Rle_0_sqr (Rabs a - Rabs b)) as Hs.
      unfold Rsqr in Hs. nra. }
    exact Hge.
Qed.

Lemma update_catch_vec_length_witness :
  Rabs (- (3 / 7)) + Rabs (- (4 / 7)) = 1 /\
  Num.norm2 (- (3 / 7), - (4 / 7)) <= 1 /\
  1 / 2 <= Num.sum_sq (- (3 / 7), - (4 / 7)).
Proof.
  apply (update_catch_vec_length example_env 0 half_radius_input (3, 4)
           (- (3 / 7)) (- (4 / 7)) (5 / 8)).
  - cbn. lra.
  - cbn. lra.
  - cbn [waypt_id half_radius_input]. rewrite int_of_float_2. reflexivity.
  - cbn. intros E. injection E as E _. lra.
  - exact catch_vec_half_radius.
Defined.

(** ** Validated scenes: catchment areas do not overlap *)

Lemma norm2_nonneg v : 0 <= Num.norm2 v.
Proof. apply sqrt_pos. Qed.

Lemma sum_sq_nonneg v : 0 <= Num.sum_sq v.
Proof. unfold Num.sum_sq. nra. Qed.

Lemma norm2_sqr v : Num.norm2 v * Num.norm2 v = Num.sum_sq v.
Proof. apply sqrt_sqrt, sum_sq_nonneg. Qed.

(** The triangle inequality through a third point. *)
Lemma norm2_triangle a b x :
  Num.norm2 (Num.vsub a b)
  <= Num.norm2 (Num.vsub a x) + Num.norm2 (Num.vsub b x).
Proof.
  set (u := Num.vsub a x). set (v := Num.vsub b x).
  assert (Huv : Num.sum_sq (Num.vsub a b)
                = Num.sum_sq u + Num.sum_sq v
                  - 2 * (fst u * fst v + snd u * snd v)).
  { unfold Num.sum_sq, u, v, Num.vsub; cbn [fst snd]. ring. }
  assert (CS : (fst u * fst v + snd u * snd v)
               * (fst u * fst v + snd u * snd v)
               <= Num.sum_sq u * Num.sum_sq v).
  { unfold Num.sum_sq.
    pose proof (Rle_0_sqr (fst u * snd v - snd u * fst v)) as H.
    unfold Rsqr in H. nra. }
  pose proof (norm2_nonneg u) as Hu. pose proof (norm2_nonneg v) as Hv.
  pose proof (norm2_sqr u) as Su. pose proof (norm2_sqr v) as Sv.
  pose proof (norm2_nonneg (Num.vsub a b)) as Hab.
  pose proof (norm2_sqr (Num.vsub a b)) as Sab.
  set (nu := Num.norm2 u) in *. set (nv := Num.norm2 v) in *.
  set (nab := Num.norm2 (Num.vsub a b)) in *.
  set (dp := fst u * fst v + snd u * snd v) in *.
  assert (Hdp : - dp <= nu * nv).
  { destruct (Rle_dec (- dp) 0) as [Hneg|Hpos]; [nra|].
    apply Rnot_le_lt in Hpos.
    apply Rsqr_incr_0_var; [|nra]. unfold Rsqr. nra. }
  apply Rsqr_incr_0_var; [|lra]. unfold Rsqr. nra.
Qed.

(** A scene that passes validation has every two waypoints more than two
    radii apart. *)
Lemma validate_params_ok_radius p sc :
  validate_params p sc = Ok tt ->
  forall i j a b,
    (i < j)%nat ->
    nth_error (waypts_pos sc) i = Some a ->
    nth_error (waypts_pos sc) j = Some b ->
    catch_area_radius p < Num.norm2 (Num.vsub a b) / 2.
Proof.
  unfold validate_params. intros H i j a b Hij Hi Hj.
  destruct (negb (2 <=? _)%nat); [discriminate|].
  destruct (existsb _ _); [discriminate|].
  destruct (Num.np_min _) as [m|] eqn:Hm; [|discriminate].
  cbv zeta in H.
  destruct (Num.ltb (catch_area_radius p) (sqrt m / 2)) eqn:E;
    [|discriminate].
  destruct (Rlt_dec (catch_area_radius p) (Num.norm2 (Num.vsub a b) / 2))
    as [Hlt|Hn]; [exact Hlt|].
  exfalso.
  assert (Hr : radius_too_large p sc) by (exists i, j, a, b; auto).
  apply (radius_check p sc m Hm) in Hr. congruence.
Qed.

Lemma norm2_vsub_sym a b : Num.norm2 (Num.vsub a b) = Num.norm2 (Num.vsub b a).
Proof.
  unfold Num.norm2. f_equal. unfold Num.sum_sq, Num.vsub; cbn [fst snd]. ring.
Qed.

(** X5.  In a scene that passes [validate_params], no position lies
    within the catchment radius of two different waypoints. *)
Theorem validated_catchment_areas_disjoint p sc x i j a b :
  validate_params p sc = Ok tt ->
  i <> j ->
  nth_error (waypts_pos sc) i = Some a ->
  nth_error (waypts_pos sc) j = Some b ->
  Num.norm2 (Num.vsub a x) < catch_area_radius p ->
  catch_area_radius p <= Num.norm2 (Num.vsub b x).
Proof.
  intros Hok Hij Hi Hj Ha.
  assert (Hfar : catch_area_radius p < Num.norm2 (Num.vsub a b) / 2).
  { destruct (Nat.lt_total i j) as [Hlt|[Heq|Hgt]]; [|contradiction|].
    - apply (validate_params_ok_radius p sc Hok i j a b Hlt Hi Hj).
    - rewrite norm2_vsub_sym.
      apply (validate_params_ok_radius p sc Hok j i b a Hgt Hj Hi). }
  pose proof (norm2_triangle a b x) as T. lra.
Qed.

(** In the example scene the origin is within a radius of Nest, hence not
    of Waypoint1. *)
Lemma validated_catchment_areas_disjoint_witness :
  catch_area_radius example_params <= Num.norm2 (Num.vsub (3, 4) (0, 0)).
Proof.
  apply (validated_catchment_areas_disjoint example_params two_goal_scene
           (0, 0) 0 2 (0, 0) (3, 4)).
  - exact validate_params_two_goal_scene.
  - lia.
  - reflexivity.
  - reflexivity.
  - unfold Num.norm2, Num.sum_sq, Num.vsub; cbn [fst snd].
    replace ((0 - 0) * (0 - 0) + (0 - 0) * (0 - 0)) with 0 by lra.
    rewrite sqrt_0. cbn. lra.
Defined.

(** ** Normalized vectors *)

Lemma vec2_nonzero_sum_sq v : v <> (0, 0) -> 0 < Num.sum_sq v.
Proof.
  intros Hne. unfold Num.sum_sq.
  destruct (Req_dec (fst v) 0) as [E1|E1].
  - destruct (Req_dec (snd v) 0) as [E2|E2].
    + exfalso. apply Hne. apply vec2_eq; cbn; lra.
    + nra.
  - nra.
Qed.

Lemma vec2_nonzero_norm2 v : v <> (0, 0) -> 0 < Num.norm2 v.
Proof. intros H. apply sqrt_lt_R0. now apply vec2_nonzero_sum_sq. Qed.

(** Dividing a nonzero vector by its norm gives a vector of norm 1. *)
Lemma unit_vector_norm v :
  v <> (0, 0) -> Num.norm2 (fst v / Num.norm2 v, snd v / Num.norm2 v) = 1.
Proof.
  intros Hne. pose proof (vec2_nonzero_norm2 v Hne) as Hn.
  pose proof (norm2_sqr v) as Sq.
  unfold Num.norm2 at 1. unfold Num.sum_sq at 1; cbn [fst snd].
  replace (fst v / Num.norm2 v * (fst v / Num.norm2 v)
           + snd v / Num.norm2 v * (snd v / Num.norm2 v)) with 1.
  - apply sqrt_1.
  - unfold Num.sum_sq in Sq. set (n := Num.norm2 v) in *.
    replace (fst v / n * (fst v / n) + snd v / n * (snd v / n))
      with ((fst v * fst v + snd v * snd v) * / (n * n)) by (field; lra).
    rewrite <- Sq. field. lra.
Qed.

Lemma any_truthy_iff (x : Num.vec2) :
  Num.truthy (fst x) || Num.truthy (snd x) = true <-> x <> (0, 0).
Proof.
  rewrite orb_true_iff, !NumFacts.truthy_true. split.
  - intros [H|H] E; subst x; cbn in H; lra.
  - intros Hne. destruct (Req_dec (fst x) 0) as [E1|E1]; [|now left].
    right. intros E2. apply Hne. apply vec2_eq; cbn; lra.
Qed.

(** X6.  [normalize_target_vec] maps the zero vector to itself and every
    other vector to the vector of Euclidean norm 1 in the same direction;
    applying it twice gives the same as applying it once. *)
Theorem normalize_target_vec_unit x :
  (x = (0, 0) -> normalize_target_vec x = (0, 0)) /\
  (x <> (0, 0) ->
   Num.norm2 (normalize_target_vec x) = 1 /\
   exists k, 0 < k /\ normalize_target_vec x = (k * fst x, k * snd x)) /\
  normalize_target_vec (normalize_target_vec x) = normalize_target_vec x.
Proof.
  assert (Z : normalize_target_vec (0, 0) = (0, 0)).
  { unfold normalize_target_vec.
    replace (Num.truthy (fst (0, 0)) || Num.truthy (snd (0, 0))) with false.
    - f_equal; lra.
    - symmetry. apply orb_false_iff.
      split; apply NumFacts.truthy_false; reflexivity. }
  assert (N : forall y, y <> (0, 0) ->
            normalize_target_vec y
            = (fst y / Num.norm2 y, snd y / Num.norm2 y)).
  { intros y Hy. unfold normalize_target_vec.
    apply any_truthy_iff in Hy. now rewrite Hy. }
  split; [intros ->; exact Z|]. split.
  - intros Hne. rewrite (N x Hne). split; [now apply unit_vector_norm|].
    exists (/ Num.norm2 x). split.
    + apply Rinv_0_lt_compat. now apply vec2_nonzero_norm2.
    + unfold Rdiv. f_equal; apply Rmult_comm.
  - destruct (any_truthy_iff x) as [_ T].
    destruct (Num.truthy (fst x) || Num.truthy (snd x)) eqn:E.
    + assert (Hne : x <> (0, 0)) by (now apply any_truthy_iff).
      pose proof (unit_vector_norm x Hne) as U.
      rewrite (N x Hne).
      set (y := (fst x / Num.norm2 x, snd x / Num.norm2 x)) in *.
      assert (Hy : y <> (0, 0)).
      { intros Ey. rewrite Ey in U. unfold Num.norm2, Num.sum_sq in U.
        cbn [fst snd] in U. rewrite Rmult_0_l, Rplus_0_l, sqrt_0 in U. lra. }
      rewrite (N y Hy), U. apply vec2_eq; cbn [fst snd]; lra.
    + assert (Ex : x = (0, 0)).
      { apply orb_false_iff in E. destruct E as [E1 E2].
        apply NumFacts.truthy_false in E1, E2. apply vec2_eq; cbn; lra. }
      subst x. now rewrite !Z.
Qed.

Lemma normalize_target_vec_unit_witness :
  Num.norm2 (normalize_target_vec (3, 4)) = 1 /\
  exists k, 0 < k /\
    normalize_target_vec (3, 4) = (k * fst (3, 4), k * snd (3, 4)).
Proof.
  apply (normalize_target_vec_unit (3, 4)).
  intros E. injection E as E _. lra.
Defined.

(** ** Normalized local vectors of a route *)

Lemma np_diff_length ps : List.length (np_diff ps) = pred (List.length ps).
Proof.
  induction ps as [|a [|b rest] IH]; try reflexivity.
  change (np_diff (a :: b :: rest)) with (Num.vsub b a :: np_diff (b :: rest)).
  cbn [List.length pred] in *. now rewrite IH.
Qed.

Lemma np_diff_nth ps : forall i a b,
  nth_error ps i = Some a -> nth_error ps (S i) = Some b ->
  nth_error (np_diff ps) i = Some (Num.vsub b a).
Proof.
  induction ps as [|p0 [|p1 rest] IH]; intros i a b Hi Hj.
  - destruct i; discriminate.
  - destruct i; cbn in Hj; discriminate.
  - change (np_diff (p0 :: p1 :: rest))
      with (Num.vsub p1 p0 :: np_diff (p1 :: rest)).
    destruct i as [|i].
    + cbn in Hi, Hj. injection Hi as <-. injection Hj as <-. reflexivity.
    + cbn [nth_error] in Hi, Hj |- *. now apply IH.
Qed.

(** X7.  The normalized local vectors of a route are as many as its
    waypoints; the last one is zero; and for two distinct consecutive
    waypoints the vector at the earlier one has Euclidean norm 1 and
    points from it to the later one. *)
Theorem route_norm_local_vecs_unit ps :
  List.length (route_norm_local_vecs ps) = List.length ps /\
  (ps <> [] ->
   nth_error (route_norm_local_vecs ps) (pred (List.length ps))
   = Some (0, 0)) /\
  (forall i a b,
     nth_error ps i = Some a -> nth_error ps (S i) = Some b -> a <> b ->
     exists v k,
       nth_error (route_norm_local_vecs ps) i = Some v /\
       Num.norm2 v = 1 /\ 0 < k /\
       v = (k * fst (Num.vsub b a), k * snd (Num.vsub b a))).
Proof.
  destruct ps as [|p0 rest].
  { split; [reflexivity|]. split; [congruence|].
    intros i a b Hi. destruct i; discriminate. }
  change (route_norm_local_vecs (p0 :: rest))
    with (map (fun v => (fst v / Num.norm2 v, snd v / Num.norm2 v))
              (np_diff (p0 :: rest)) ++ [(0, 0)]).
  set (ps := p0 :: rest).
  assert (Hlen : List.length
            (map (fun v => (fst v / Num.norm2 v, snd v / Num.norm2 v))
                 (np_diff ps)) = pred (List.length ps))
    by (rewrite length_map; apply np_diff_length).
  split; [|split].
  - rewrite length_app, Hlen. cbn. lia.
  - intros _. rewrite nth_error_app2 by lia.
    rewrite Hlen, Nat.sub_diag. reflexivity.
  - intros i a b Hi Hj Hne.
    pose proof (np_diff_nth ps i a b Hi Hj) as Hd.
    set (c := Num.vsub b a) in *.
    assert (Hc : c <> (0, 0)).
    { intros E. apply Hne. subst c. unfold Num.vsub in E.
      injection E as E1 E2. apply vec2_eq; lra. }
    exists (fst c / Num.norm2 c, snd c / Num.norm2 c), (/ Num.norm2 c).
    split; [|split; [|split]].
    + rewrite nth_error_app1.
      * rewrite nth_error_map. unfold Num.vec2 in *. rewrite Hd. reflexivity.
      * rewrite length_map. apply nth_error_Some.
        unfold Num.vec2 in *. rewrite Hd. discriminate.
    + now apply unit_vector_norm.
    + apply Rinv_0_lt_compat. now apply vec2_nonzero_norm2.
    + unfold Rdiv. f_equal; apply Rmult_comm.
Qed.

(** The first leg of the route Nest, Waypoint1, Feed1 of the example. *)
Lemma route_norm_local_vecs_unit_witness :
  exists v k,
    nth_error (route_norm_local_vecs [(0, 0); (3, 4); (6, 8)]) 0 = Some v /\
    Num.norm2 v = 1 /\ 0 < k /\
    v = (k * fst (Num.vsub (3, 4) (0, 0)), k * snd (Num.vsub (3, 4) (0, 0))).
Proof.
  apply (route_norm_local_vecs_unit [(0, 0); (3, 4); (6, 8)]).
  - reflexivity.
  - reflexivity.
  - intros E. injection E as E _. lra.
Defined.

(** ** Vision *)

Lemma in_range_norm_dist n r : 0 < r -> 0 <= n -> n < r -> 0 <= n / r < 1.
Proof.
  intros Hr Hn Hlt. split.
  - apply Rmult_le_pos; [exact Hn|]. left. now apply Rinv_0_lt_compat.
  - apply Rmult_lt_reg_r with (r := r); [exact Hr|].
    unfold Rdiv. rewrite Rmult_assoc, Rinv_l by lra. lra.
Qed.

(** X8.  Fed with the output of the catchment-area node, in a scene with
    one name per waypoint position and a view vocabulary that holds every
    view key, the vision node never raises: with no waypoint in range it
    returns the zero vector of dimension [sp_dim]; otherwise it returns
    the view code of the nearest waypoint scaled by 1 - 0.7 d, a factor in
    (0.3, 1]. *)
Theorem update_vision_after_catch_area env views_vocab t x a d :
  0 < catch_area_radius (params env) ->
  List.length (waypts_names (scene env))
  = List.length (waypts_pos (scene env)) ->
  (forall key, In key (views_sp_keys (scene env)) ->
     vocab_get (keys views_vocab) (vectors views_vocab) key <> None) ->
  update_catch_area env t x = Ok (a, d) ->
  (d = -1 /\
   update_vision env views_vocab t (a, d)
   = Ok (repeat 0 (sp_dim (params env)))) \/
  (exists w waypt_name v,
     a = INR w /\
     nth_error (waypts_names (scene env)) w = Some waypt_name /\
     vocab_get (keys views_vocab) (vectors views_vocab)
               ("VIEW_" ++ Str.upper waypt_name) = Some v /\
     0.3 < 1 - 0.7 * d <= 1 /\
     update_vision env views_vocab t (a, d)
     = Ok (map (fun c => (1 - 0.7 * d) * c) v)).
Proof.
  intros Hr Hlen Hvocab Hca.
  destruct (update_catch_area_cases env t x)
    as [[E _]|[[E _]|(w & p & E & Hp & Hlt & Hnear)]];
    rewrite E in Hca; try discriminate.
  - injection Hca as <- <-. left. split; [reflexivity|].
    unfold update_vision. cbn [snd]. rewrite !NumFacts.lit_0.
    replace (Num.geb (-1) 0) with false
      by (symmetry; apply NumFacts.geb_false; lra).
    reflexivity.
  - injection Hca as <- <-. right.
    pose proof (in_range_norm_dist _ _ Hr (norm2_nonneg (Num.vsub p x)) Hlt)
      as [Hd0 Hd1].
    set (d := Num.norm2 (Num.vsub p x) / catch_area_radius (params env)) in *.
    assert (Hw : (w < List.length (waypts_names (scene env)))%nat).
    { rewrite Hlen. apply nth_error_Some. congruence. }
    destruct (nth_error (waypts_names (scene env)) w) as [name|] eqn:Hname.
    2:{ apply nth_error_None in Hname. lia. }
    assert (Hkey : nth_error (views_sp_keys (scene env)) w
                   = Some ("VIEW_" ++ Str.upper name)%string).
    { unfold views_sp_keys. rewrite nth_error_map, Hname. reflexivity. }
    destruct (vocab_get (keys views_vocab) (vectors views_vocab)
                ("VIEW_" ++ Str.upper name)) as [v|] eqn:Hv.
    2:{ exfalso. apply (Hvocab ("VIEW_" ++ Str.upper name)%string).
        - eapply nth_error_In; eauto.
        - exact Hv. }
    exists w, name, v. repeat split; auto; try lra.
    unfold update_vision. cbn [fst snd].
    rewrite NumFacts.lit_0, NumFacts.lit_1.
    replace (Num.geb d 0) with true
      by (symmetry; apply NumFacts.geb_true; lra).
    rewrite int_of_float_INR, np_index_of_nat, Hkey, Hv. reflexivity.
Qed.

(** ** Routepoint keys *)

Lemma validate_params_ok_routes p sc :
  validate_params p sc = Ok tt ->
  forall route, In route (routes_waypts_names sc) ->
    exists init g, route = init ++ [g] /\ In g (goals_names sc).
Proof.
  unfold validate_params. intros H route Hin.
  destruct (negb (2 <=? _)%nat); [discriminate|].
  destruct (existsb _ _); [discriminate|].
  destruct (Num.np_min _) as [m|]; [|discriminate].
  cbv zeta in H.
  destruct (negb (Num.ltb (catch_area_radius p) _)); [discriminate|].
  destruct (negb (Num.ltb (catch_vec_core p) _)); [discriminate|].
  destruct (negb (1 <=? _)%nat); [discriminate|].
  pose proof (validate_routes_raises sc (routes_waypts_names sc) 0%nat) as VR.
  destruct (validate_routes sc 0 (routes_waypts_names sc)) as [[]|e];
    [|discriminate].
  destruct (list_snoc_cases route) as [->|(init & g & ->)].
  - exfalso. destruct VR as [_ VR]. cbn in VR. discriminate VR.
    exists []. split; [exact Hin|now left].
  - exists init, g. split; [reflexivity|].
    destruct (in_dec string_dec g (goals_names sc)) as [Hg|Hg]; [exact Hg|].
    exfalso. destruct VR as [_ VR]. cbn in VR. discriminate VR.
    exists (init ++ [g]). split; [exact Hin|right; eauto].
Qed.

Lemma route_routepts_sp_keys_snoc init g :
  route_routepts_sp_keys (init ++ [g])
  = Ok (map (fun w => routept_sp_key (Str.upper g)
                        ("VIEW_" ++ Str.upper w)%string) init
        ++ [goal_routept_sp_key g]).
Proof.
  unfold route_routepts_sp_keys. rewrite np_index_last, map_app.
  reflexivity.
Qed.

(** X9.  For a scene that passes [validate_params], the loop that builds
    the routepoint keys raises for no route, and the last key it builds
    for each route is the key that goal detection compares with for the
    goal the route ends at, a goal of the scene. *)
Theorem validated_routes_end_with_goal_key p sc :
  validate_params p sc = Ok tt ->
  exists kss,
    routes_routepts_sp_keys (routes_waypts_names sc) = Ok kss /\
    Forall2
      (fun route ks =>
         exists init g,
           route = init ++ [g] /\ In g (goals_names sc) /\
           ks = map (fun w => routept_sp_key (Str.upper g)
                                ("VIEW_" ++ Str.upper w)%string) init
                ++ [goal_routept_sp_key g])
      (routes_waypts_names sc) kss.
Proof.
  intros Hok. pose proof (validate_params_ok_routes p sc Hok) as Hr.
  induction (routes_waypts_names sc) as [|route rest IH].
  - exists []. split; [reflexivity|constructor].
  - destruct (Hr route (or_introl eq_refl)) as (init & g & -> & Hg).
    destruct IH as (kss & E & F).
    { intros r Hin. apply Hr. now right. }
    cbn [routes_routepts_sp_keys].
    rewrite route_routepts_sp_keys_snoc, E.
    eexists. split; [reflexivity|].
    constructor; [|exact F]. exists init, g. auto.
Qed.

Lemma validated_routes_end_with_goal_key_witness :
  exists kss,
    routes_routepts_sp_keys (routes_waypts_names dummy_scene) = Ok kss /\
    Forall2
      (fun route ks =>
         exists init g,
           route = init ++ [g] /\ In g (goals_names dummy_scene) /\
           ks = map (fun w => routept_sp_key (Str.upper g)
                                ("VIEW_" ++ Str.upper w)%string) init
                ++ [goal_routept_sp_key g])
      (routes_waypts_names dummy_scene) kss.
Proof.
  apply (validated_routes_end_with_goal_key multiple_goals_params dummy_scene).
  exact validate_params_dummy_scene.
Defined.

(** The robot at Waypoint1 of the example scene. *)
Lemma update_vision_after_catch_area_witness :
  (0 = -1 /\
   update_vision example_env example_views_vocab 0 (2, 0)
   = Ok (repeat 0 (sp_dim (params example_env)))) \/
  (exists w waypt_name v,
     2 = INR w /\
     nth_error (waypts_names (scene example_env)) w = Some waypt_name /\
     vocab_get (keys example_views_vocab) (vectors example_views_vocab)
               ("VIEW_" ++ Str.upper waypt_name) = Some v /\
     0.3 < 1 - 0.7 * 0 <= 1 /\
     update_vision example_env example_views_vocab 0 (2, 0)
     = Ok (map (fun c => (1 - 0.7 * 0) * c) v)).
Proof.
  apply (update_vision_after_catch_area example_env example_views_vocab
           0 (3, 4) 2 0).
  - cbn. lra.
  - reflexivity.
  - cbn. intros key [<-|[<-|[<-|[]]]]; discriminate.
  - exact catch_area_at_centre.
Defined.

(** ** The memory from previous to next routepoints *)

Lemma removelast_tl_lengths {A : Type} (ks : list A) :
  List.length (removelast ks) = List.length (tl ks).
Proof.
  rewrite removelast_firstn_len, length_firstn, length_tl. lia.
Qed.

Lemma combine_app_same {A B : Type} (l1 l2 : list A) (r1 r2 : list B) :
  List.length l1 = List.length r1 ->
  combine (l1 ++ l2) (r1 ++ r2) = combine l1 r1 ++ combine l2 r2.
Proof.
  revert r1; induction l1 as [|a l1 IH]; intros [|b r1] H;
    try discriminate; cbn.
  - reflexivity.
  - f_equal. apply IH. now injection H.
Qed.

(** [zip(ks[:-1], ks[1:])] is the list of consecutive pairs. *)
Lemma combine_removelast_tl {A : Type} (ks : list A) : forall a b,
  In (a, b) (combine (removelast ks) (tl ks)) <->
  exists i, nth_error ks i = Some a /\ nth_error ks (S i) = Some b.
Proof.
  induction ks as [|k0 [|k1 rest] IH]; intros a b.
  - cbn. split; [intros []|]. intros (i & Hi & _). destruct i; discriminate.
  - cbn. split; [intros []|]. intros (i & _ & Hj).
    destruct i; cbn in Hj; discriminate.
  - change (removelast (k0 :: k1 :: rest))
      with (k0 :: removelast (k1 :: rest)).
    change (tl (k0 :: k1 :: rest)) with (k1 :: rest).
    assert (E : combine (k0 :: removelast (k1 :: rest)) (k1 :: rest)
                = (k0, k1) :: combine (removelast (k1 :: rest))
                                      (tl (k1 :: rest))).
    { reflexivity. }
    rewrite E. cbn [In]. rewrite IH. split.
    + intros [[= <- <-]|(i & Hi & Hj)].
      * exists 0%nat. split; reflexivity.
      * exists (S i). split; assumption.
    + intros (i & Hi & Hj). destruct i as [|i].
      * left. cbn in Hi, Hj. congruence.
      * right. exists i. split; assumption.
Qed.

Lemma prev2next_keys_combine kss :
  List.length (prev2next_input_keys kss)
  = List.length (prev2next_output_keys kss) /\
  combine (prev2next_input_keys kss) (prev2next_output_keys kss)
  = List.concat (map (fun ks => combine (removelast ks) (tl ks)) kss).
Proof.
  unfold prev2next_input_keys, prev2next_output_keys.
  induction kss as [|ks rest [IHl IHc]]; cbn [map List.concat].
  - split; reflexivity.
  - split.
    + rewrite !length_app, IHl, removelast_tl_lengths. reflexivity.
    + rewrite combine_app_same by apply removelast_tl_lengths.
      now rewrite IHc.
Qed.

(** X10.  The input and output key lists of the memory from previous to
    next routepoints have the same length, and position by position they
    pair exactly the keys that are consecutive in some route: each
    routepoint but the last of a route with its successor on that
    route. *)
Theorem prev2next_keys_are_successors kss :
  List.length (prev2next_input_keys kss)
  = List.length (prev2next_output_keys kss) /\
  forall a b,
    In (a, b) (combine (prev2next_input_keys kss)
                       (prev2next_output_keys kss)) <->
    exists ks i,
      In ks kss /\ nth_error ks i = Some a /\ nth_error ks (S i) = Some b.
Proof.
  destruct (prev2next_keys_combine kss) as [Hlen Hc].
  split; [exact Hlen|]. intros a b. rewrite Hc, in_concat. split.
  - intros (l & Hl & Hab). apply in_map_iff in Hl.
    destruct Hl as (ks & <- & Hks).
    apply combine_removelast_tl in Hab. destruct Hab as (i & Hi & Hj).
    exists ks, i. auto.
  - intros (ks & i & Hks & Hi & Hj).
    exists (combine (removelast ks) (tl ks)). split.
    + apply in_map_iff. exists ks. auto.
    + apply combine_removelast_tl. exists i. auto.
Qed.

(** ** The new-goal node *)

(** The evaluation that finds a pending goal applies it. *)
Lemma goal_input_apply env t x m name v :
  _new_goal_name m = Some name ->
  vocab_get (keys (goals_vocab env)) (vectors (goals_vocab env))
            (Str.upper name) = Some v ->
  update_goal_input env t x m
  = (Ok (1 :: Num.lsub v x),
     set_new_goal_name None
       (set_goal_sp (Some (Num.lsub v x))
          (set_t_new_goal (Some t) (set_goal_name (Some name) m)))).
Proof.
  intros Hn Hv. unfold update_goal_input. now rewrite Hn, Hv.
Qed.

Lemma run_goal_input_idle env evs : forall m,
  _new_goal_name m = None -> _t_new_goal m = None ->
  run_goal_input env evs m
  = (map (fun _ => Ok (0 :: repeat 0 (sp_dim (params env)))) evs, m).
Proof.
  induction evs as [|[t x] rest IH]; intros m Hn Ht;
    cbn [run_goal_input map].
  - reflexivity.
  - unfold update_goal_input. rewrite Hn, Ht.
    now rewrite (IH m Hn Ht).
Qed.

Lemma run_goal_input_hold env evs : forall m t0 tprev gs,
  _new_goal_name m = None -> _t_new_goal m = Some t0 ->
  _goal_sp m = Some gs ->
  ascending tprev (map fst evs) ->
  fst (run_goal_input env evs m)
  = map (fun e => if Num.ltb (fst e) (t0 + 0.1)
                  then Ok (1 :: gs)
                  else Ok (0 :: repeat 0 (sp_dim (params env)))) evs.
Proof.
  induction evs as [|[t x] rest IH]; intros m t0 tprev gs Hn Ht Hg Hasc;
    cbn [run_goal_input map fst].
  - reflexivity.
  - destruct Hasc as [_ Hasc].
    unfold update_goal_input. rewrite Hn, Ht, Hg.
    destruct (Num.ltb t (t0 + 0.1)) eqn:E.
    + specialize (IH m t0 t gs Hn Ht Hg Hasc).
      destruct (run_goal_input env rest m) as [rs m'']. cbn in *.
      now rewrite IH.
    + rewrite run_goal_input_idle by (cbn; auto). cbn [fst]. f_equal.
      apply NumFacts.ltb_false in E.
      apply ascending_lower_bound in Hasc.
      apply map_ext_Forall. rewrite Forall_map in Hasc.
      eapply Forall_impl; [|exact Hasc].
      cbn; intros a Ha.
      replace (Num.ltb (fst a) (t0 + 0.1)) with false
        by (symmetry; apply NumFacts.ltb_false; lra).
      reflexivity.
Qed.

(** X11.  With a goal pending whose key is in the goal vocabulary, the
    next evaluation of the new-goal node (time [t0], input [x0]) makes it
    the current goal, clears the pending name and returns the set flag 1
    with the difference between the goal's code and [x0]; every later
    evaluation before [t0 + 0.1] returns flag 1 with that same stored
    difference, whatever its input, and every evaluation from [t0 + 0.1]
    on returns flag 0 with a zero vector. *)
Theorem goal_input_pulse env m name v t0 x0 evs :
  _new_goal_name m = Some name ->
  vocab_get (keys (goals_vocab env)) (vectors (goals_vocab env))
            (Str.upper name) = Some v ->
  ascending t0 (map fst evs) ->
  fst (run_goal_input env ((t0, x0) :: evs) m)
  = Ok (1 :: Num.lsub v x0)
    :: map (fun e => if Num.ltb (fst e) (t0 + 0.1)
                     then Ok (1 :: Num.lsub v x0)
                     else Ok (0 :: repeat 0 (sp_dim (params env)))) evs /\
  _goal_name (snd (update_goal_input env t0 x0 m)) = Some name /\
  _new_goal_name (snd (update_goal_input env t0 x0 m)) = None.
Proof.
  intros Hn Hv Hasc. cbn [run_goal_input].
  rewrite (goal_input_apply env t0 x0 m name v Hn Hv).
  pose proof (run_goal_input_hold env evs
                (set_new_goal_name None
                   (set_goal_sp (Some (Num.lsub v x0))
                      (set_t_new_goal (Some t0)
                         (set_goal_name (Some name) m))))
                t0 t0 (Num.lsub v x0) eq_refl eq_refl eq_refl Hasc) as H.
  destruct (run_goal_input env evs _) as [rs m'']. cbn [fst snd] in *.
  rewrite H. repeat split; reflexivity.
Qed.

(** The first ticks of the example controller: the initial pending goal
    NONE is applied. *)
Lemma goal_input_pulse_witness :
  fst (run_goal_input example_env
         [(0, [0; 0; 0]); (0.05, [1; 0; 0]); (0.1, [1; 0; 0])]
         (init_model (0, 0) (0, 0)))
  = Ok (1 :: Num.lsub [1; 0; 0] [0; 0; 0])
    :: map (fun e => if Num.ltb (fst e) (0 + 0.1)
                     then Ok (1 :: Num.lsub [1; 0; 0] [0; 0; 0])
                     else Ok (0 :: repeat 0 (sp_dim (params example_env))))
           [(0.05, [1; 0; 0]); (0.1, [1; 0; 0])].
Proof.
  apply (goal_input_pulse example_env (init_model (0, 0) (0, 0)) "NONE"
           [1; 0; 0] 0 [0; 0; 0] [(0.05, [1; 0; 0]); (0.1, [1; 0; 0])]).
  - reflexivity.
  - reflexivity.
  - cbn. repeat split; lra.
Defined.

(** X12.  A [set_goal] with a goal of the scene that is not the current
    one is idempotent while the change is pending, and once the new-goal
    node has applied it, the goal is current, nothing is pending, the
    goal-reached flag is down, and a further [set_goal] with the same name
    changes nothing. *)
Theorem set_goal_then_goal_input env goal_name m t x v :
  In goal_name (goals_names (scene env)) ->
  _goal_name m <> Some goal_name ->
  vocab_get (keys (goals_vocab env)) (vectors (goals_vocab env))
            (Str.upper goal_name) = Some v ->
  let m1 := snd (set_goal (scene env) goal_name m) in
  let m2 := snd (update_goal_input env t x m1) in
  set_goal (scene env) goal_name m1 = (Ok tt, m1) /\
  _goal_name m2 = Some goal_name /\
  _new_goal_name m2 = None /\
  _goal_reached m2 = false /\
  set_goal (scene env) goal_name m2 = (Ok tt, m2).
Proof.
  intros Hin Hcur Hv m1 m2.
  assert (E1 : m1 = set_goal_reached false
                      (set_new_goal_name (Some goal_name) m)).
  { subst m1. now rewrite (set_goal_new (scene env) goal_name m Hin Hcur). }
  assert (E2 : m2 = set_new_goal_name None
                      (set_goal_sp (Some (Num.lsub v x))
                         (set_t_new_goal (Some t)
                            (set_goal_name (Some goal_name) m1)))).
  { subst m2. rewrite (goal_input_apply env t x m1 goal_name v); auto.
    rewrite E1. reflexivity. }
  split.
  - rewrite (set_goal_new (scene env) goal_name m1 Hin).
    + rewrite E1. reflexivity.
    + rewrite E1. exact Hcur.
  - rewrite E2, E1. repeat split.
    apply set_goal_current_state. reflexivity.
Qed.

Lemma set_goal_then_goal_input_witness :
  let m1 := snd (set_goal (scene example_env) "Feed1"
                   (init_model (0, 0) (0, 0))) in
  let m2 := snd (update_goal_input example_env 0 [1; 0; 0] m1) in
  set_goal (scene example_env) "Feed1" m1 = (Ok tt, m1) /\
  _goal_name m2 = Some "Feed1"%string /\
  _new_goal_name m2 = None /\
  _goal_reached m2 = false /\
  set_goal (scene example_env) "Feed1" m2 = (Ok tt, m2).
Proof.
  apply (set_goal_then_goal_input example_env "Feed1"
           (init_model (0, 0) (0, 0)) 0 [1; 0; 0] [0; 0; 1]).
  - cbn. auto.
  - cbn. discriminate.
  - reflexivity.
Defined.

(** X13.  In a scene where NONE is not a goal name, [set_goal] with the
    name NONE raises on the controller as constructed, but once the
    new-goal node has applied the initial pending goal NONE the same call
    returns normally and changes nothing. *)
Theorem set_goal_none_before_and_after_first_tick env g0 p0 t x v :
  ~ In "NONE"%string (goals_names (scene env)) ->
  vocab_get (keys (goals_vocab env)) (vectors (goals_vocab env)) "NONE"
  = Some v ->
  let m0 := init_model g0 p0 in
  let m1 := snd (update_goal_input env t x m0) in
  set_goal (scene env) "NONE" m0 = (Raise ValueError, m0) /\
  _goal_name m1 = Some "NONE"%string /\
  set_goal (scene env) "NONE" m1 = (Ok tt, m1).
Proof.
  intros Hin Hv m0 m1. split; [|split].
  - apply set_goal_unknown_state; [exact Hin|]. cbn. discriminate.
  - subst m1. rewrite (goal_input_apply env t x m0 "NONE" v); auto.
  - apply set_goal_current_state.
    subst m1. rewrite (goal_input_apply env t x m0 "NONE" v); auto.
Qed.

Lemma set_goal_none_before_and_after_first_tick_witness :
  let m0 := init_model (0, 0) (0, 0) in
  let m1 := snd (update_goal_input example_env 0 [0; 0; 0] m0) in
  set_goal (scene example_env) "NONE" m0 = (Raise ValueError, m0) /\
  _goal_name m1 = Some "NONE"%string /\
  set_goal (scene example_env) "NONE" m1 = (Ok tt, m1).
Proof.
  apply (set_goal_none_before_and_after_first_tick example_env (0, 0) (0, 0)
           0 [0; 0; 0] [1; 0; 0]).
  - cbn. intros [H|[H|[]]]; discriminate.
  - reflexivity.
Defined.

(** ** Goal detection: when the flag does go up, and that it returns *)

Lemma run_goal_detect_keeps_flag env evs : forall m,
  _goal_reached m = true ->
  _goal_reached (run_goal_detect env evs m) = true.
Proof.
  induction evs as [|[t x] rest IH]; intros m Hf; cbn [run_goal_detect].
  - exact Hf.
  - destruct (goal_detect_keeps_flag env t x m Hf) as [K _].
    destruct (update_goal_detect env t x m) as [[b|e] m'];
      cbn [snd] in K; [now apply IH|exact K].
Qed.

Lemma run_goal_detect_timer_running env evs : forall m t0,
  _goal_reached m = false -> _t_goal_reached m = Some t0 ->
  Forall (fun e => qualifying env (snd e) = true) evs ->
  _goal_reached (run_goal_detect env evs m)
  = existsb (fun e => Num.ltb (t0 + 0.2) (fst e)) evs.
Proof.
  induction evs as [|[t x] rest IH]; intros m t0 Hf Ht Hq;
    cbn [run_goal_detect existsb fst].
  - exact Hf.
  - inversion Hq as [|e l Q Hq']; subst. cbn [snd] in Q.
    rewrite (goal_detect_qualifying env t x m Q), Ht.
    destruct (Num.ltb (t0 + 0.2) t) eqn:E; cbn [orb].
    + apply run_goal_detect_keeps_flag. reflexivity.
    + now apply IH.
Qed.

(** X14.  Over a run of evaluations of the goal-detection node that all
    qualify, started with the flag down and no timer running, the flag is
    up at the end exactly when some evaluation after the first comes more
    than 0.2 s later than the first (the timer keeps the time of the first
    qualifying evaluation and is not restarted by the following ones). *)
Theorem goal_reached_after_hold env m t0 x0 rest :
  _goal_reached m = false -> _t_goal_reached m = None ->
  Forall (fun e => qualifying env (snd e) = true) ((t0, x0) :: rest) ->
  _goal_reached (run_goal_detect env ((t0, x0) :: rest) m)
  = existsb (fun e => Num.ltb (t0 + 0.2) (fst e)) rest.
Proof.
  intros Hf Ht Hq. inversion Hq as [|e l Q Hq']; subst. cbn [snd] in Q.
  cbn [run_goal_detect].
  rewrite (goal_detect_qualifying env t0 x0 m Q), Ht.
  apply run_goal_detect_timer_running; [exact Hf|reflexivity|exact Hq'].
Qed.

(** At the goal from time 0, evaluated every 0.1 s. *)
Lemma goal_reached_after_hold_witness :
  _goal_reached
    (run_goal_detect example_env
       [(0, at_goal_input); (0.1, at_goal_input); (0.2, at_goal_input);
        (0.3, at_goal_input)]
       (init_model (0, 0) (0, 0)))
  = existsb (fun e => Num.ltb (0 + 0.2) (fst e))
      [(0.1, at_goal_input); (0.2, at_goal_input); (0.3, at_goal_input)].
Proof.
  apply (goal_reached_after_hold example_env (init_model (0, 0) (0, 0)) 0
           at_goal_input
           [(0.1, at_goal_input); (0.2, at_goal_input); (0.3, at_goal_input)]).
  - reflexivity.
  - reflexivity.
  - repeat constructor; exact at_goal_input_qualifying.
Defined.

Lemma np_max_some l : l <> [] -> exists m, Num.np_max l = Some m.
Proof. destruct l; [congruence|]. intros _. eexists. reflexivity. Qed.

Lemma argmax_some l : l <> [] -> exists j, Num.argmax l = Some j.
Proof. destruct l; [congruence|]. intros _. eexists. reflexivity. Qed.

(** A raising evaluation of the goal-detection node has written
    nothing. *)
Lemma goal_detect_raise_writes_nothing env t x m e m' :
  update_goal_detect env t x m = (Raise e, m') -> m' = m.
Proof.
  destruct (qualifying env x) eqn:Q.
  - rewrite (goal_detect_qualifying env t x m Q).
    destruct (_t_goal_reached m) as [t0|]; [|discriminate].
    destruct (Num.ltb (t0 + 0.2) t); discriminate.
  - destruct (goal_detect_not_qualifying env t x m Q) as [[e' ->]| ->];
      [|discriminate].
    now intros [= _ <-].
Qed.

(** X15.  With vocabularies of the shape [_make_model] gives them, an
    evaluation of the goal-detection node never raises, and the value it
    returns is the goal-reached flag as it stands after the evaluation;
    in general, an evaluation that does raise has written nothing. *)
Theorem update_goal_detect_returns_flag env t x m :
  vocabs_shaped env ->
  (exists b m',
     update_goal_detect env t x m = (Ok b, m') /\ b = _goal_reached m') /\
  (forall env' e m',
     update_goal_detect env' t x m = (Raise e, m') -> m' = m).
Proof.
  intros (Hg & Hr & Hk).
  split; [|intros env' e m'; apply goal_detect_raise_writes_nothing].
  destruct (qualifying env x) eqn:Q.
  - rewrite (goal_detect_qualifying env t x m Q).
    destruct (_t_goal_reached m) as [t0|]; [|eexists; eexists; split; reflexivity].
    destruct (Num.ltb (t0 + 0.2) t); eexists; eexists; split; reflexivity.
  - destruct (goal_detect_not_qualifying env t x m Q) as [[e E]| ->];
      [|eexists; eexists; split; reflexivity].
    exfalso. revert E. unfold update_goal_detect.
    set (gd := similarity (firstn (sp_dim (params env)) x) (goals_vocab env)).
    set (rd := similarity
                 (firstn (sp_dim (params env)) (skipn (sp_dim (params env)) x))
                 (routepts_vocab env)).
    assert (Lg : List.length gd = S (List.length (goals_names (scene env))))
      by (subst gd; unfold similarity; now rewrite length_map).
    assert (Lr : List.length rd = List.length (keys (routepts_vocab env)))
      by (subst rd; unfold similarity; now rewrite length_map).
    assert (Ng : gd <> []) by (intros Z; rewrite Z in Lg; discriminate).
    assert (Nr : rd <> []).
    { intros Z. subst rd. unfold similarity in Z.
      apply map_eq_nil in Z. contradiction. }
    destruct (np_max_some gd Ng) as [gm ->].
    destruct (argmax_some gd Ng) as [g Hgi]. rewrite Hgi.
    apply argmax_bound in Hgi.
    destruct (Num.ltb gm 0.45); [discriminate|].
    destruct (np_max_some rd Nr) as [rm ->].
    destruct (argmax_some rd Nr) as [r Hri]. rewrite Hri.
    apply argmax_bound in Hri.
    destruct (Num.ltb rm 0.45); [discriminate|].
    destruct (g =? 0)%nat eqn:G0; [discriminate|].
    apply Nat.eqb_neq in G0.
    destruct (nth_error (goals_names (scene env)) (g - 1)) eqn:Hn.
    2:{ apply nth_error_None in Hn. lia. }
    destruct (nth_error (keys (routepts_vocab env)) r) eqn:Hkr.
    2:{ apply nth_error_None in Hkr. lia. }
    destruct (String.eqb _ _); [|discriminate].
    destruct (_t_goal_reached m) as [t0|]; [|discriminate].
    destruct (Num.ltb (t0 + 0.2) t); discriminate.
Qed.

Lemma update_goal_detect_returns_flag_witness :
  (exists b m',
     update_goal_detect example_env 0 at_goal_input (init_model (0, 0) (0, 0))
     = (Ok b, m') /\ b = _goal_reached m') /\
  (forall env' e m',
     update_goal_detect env' 0 at_goal_input (init_model (0, 0) (0, 0))
     = (Raise e, m') -> m' = init_model (0, 0) (0, 0)).
Proof.
  apply (update_goal_detect_returns_flag example_env 0 at_goal_input
           (init_model (0, 0) (0, 0))).
  repeat split. cbn. discriminate.
Defined.

(** ** Displacement: the window in which the global vector is frozen *)

Lemma run_displace_pulse_state ts : forall m t0,
  _displaced m = false -> _t_displace m = Some t0 ->
  snd (run_displace ts m)
  = if forallb (fun t => Num.ltb t (t0 + 0.1)) ts
    then m else set_t_displace None m.
Proof.
  induction ts as [|t rest IH]; intros m t0 Hd Ht;
    cbn [run_displace forallb].
  - reflexivity.
  - unfold update_displace; rewrite Hd, Ht.
    destruct (Num.ltb t (t0 + 0.1)) eqn:E; cbn [andb].
    + specialize (IH m t0 Hd Ht).
      destruct (run_displace rest m) as [bs m'']. exact IH.
    + rewrite run_displace_idle by (cbn; auto). reflexivity.
Qed.

(** X16.  After [on_displace()] and evaluations of the displacement node
    at times [t0 :: ts], the state differs from the one before the
    notification only in the stored displacement time, which is [t0] as
    long as every later evaluation came before [t0 + 0.1] and is cleared
    otherwise; accordingly the next evaluation of the global-vector node
    leaves the global vector unchanged in the first case and adds the
    position delta in the second. *)
Theorem displace_freezes_global_vec m t0 ts :
  _displaced m = false ->
  let m' := snd (run_displace (t0 :: ts) (on_displace m)) in
  let pulse := forallb (fun t => Num.ltb t (t0 + 0.1)) ts in
  m' = set_t_displace (if pulse then Some t0 else None) m /\
  forall t x,
    fst (update_global_vec t x m')
    = if pulse then _global_vec m
      else Num.vadd (_global_vec m) (Num.vsub x (_bot_prev_pos m)).
Proof.
  intros Hd m' pulse.
  assert (E : m' = set_t_displace (if pulse then Some t0 else None) m).
  { subst m' pulse. cbn [run_displace]. unfold update_displace, on_displace.
    cbn [_displaced set_displaced].
    pose proof (run_displace_pulse_state ts
                  (set_displaced false
                     (set_t_displace (Some t0) (set_displaced true m)))
                  t0 eq_refl eq_refl) as P.
    destruct (run_displace ts _) as [bs m'']. cbn [snd] in *. rewrite P.
    destruct m. cbn in Hd. subst.
    destruct (forallb _ ts); reflexivity. }
  split; [exact E|]. intros t x. rewrite E.
  destruct pulse.
  - rewrite update_global_vec_frozen; [reflexivity|].
    right. cbn. discriminate.
  - pose proof (update_global_vec_quiet t x (set_t_displace None m)) as Q.
    destruct (update_global_vec t x (set_t_displace None m)) as [g m2].
    destruct Q as (Hg & _); [exact Hd|reflexivity|]. exact Hg.
Qed.

Lemma displace_freezes_global_vec_witness :
  let m' := snd (run_displace [0.5; 0.55; 0.6]
                   (on_displace (init_model (1, 1) (0, 0)))) in
  let pulse := forallb (fun t => Num.ltb t (0.5 + 0.1)) [0.55; 0.6] in
  m' = set_t_displace (if pulse then Some 0.5 else None)
         (init_model (1, 1) (0, 0)) /\
  forall t x,
    fst (update_global_vec t x m')
    = if pulse then _global_vec (init_model (1, 1) (0, 0))
      else Num.vadd (_global_vec (init_model (1, 1) (0, 0)))
             (Num.vsub x (_bot_prev_pos (init_model (1, 1) (0, 0)))).
Proof.
  apply (displace_freezes_global_vec (init_model (1, 1) (0, 0)) 0.5
           [0.55; 0.6]).
  reflexivity.
Defined.

(** ** A teleport, end to end *)

Lemma last_cons_default {A : Type} (l : list A) : forall a d,
  last (a :: l) d = last l a.
Proof.
  induction l as [|b l IH]; intros a d; [reflexivity|].
  change (last (a :: b :: l) d) with (last (b :: l) d).
  now rewrite (IH b d), (IH b a).
Qed.

Lemma last_app_default {A : Type} (l1 l2 : list A) : forall d,
  last (l1 ++ l2) d = last l2 (last l1 d).
Proof.
  induction l1 as [|a l1 IH]; intros d; [reflexivity|].
  change ((a :: l1) ++ l2) with (a :: (l1 ++ l2)).
  now rewrite !last_cons_default, IH.
Qed.

Lemma last_map_snd_app (evs1 evs2 : list (R * Num.vec2)) (d : Num.vec2) :
  last (map snd (evs1 ++ evs2)) d
  = last (map snd evs2) (last (map snd evs1) d).
Proof. rewrite map_app. apply last_app_default. Qed.

(** Evaluations of the global-vector node while it is suspended only move
    the reference position. *)
Lemma exec_all_suspended env evs : forall s,
  _displaced s = true \/ _t_displace s <> None ->
  let s' := exec_all env (map (fun e => UpdateGlobalVec (fst e) (snd e)) evs) s in
  _global_vec s' = _global_vec s /\
  _displaced s' = _displaced s /\
  _t_displace s' = _t_displace s /\
  _bot_prev_pos s' = last (map snd evs) (_bot_prev_pos s).
Proof.
  unfold exec_all.
  induction evs as [|[t x] rest IH]; intros s Hs; cbn [map fold_left].
  - repeat split; reflexivity.
  - cbn [exec fst snd]. rewrite (update_global_vec_frozen t x s Hs).
    cbn [snd].
    destruct (IH (set_bot_prev_pos x s)) as (Hg & Hd & Ht & Hp);
      [exact Hs|].
    cbn [_global_vec _displaced _t_displace _bot_prev_pos set_bot_prev_pos]
      in Hg, Hd, Ht, Hp.
    repeat split; auto.
    rewrite Hp. symmetry. apply last_cons_default.
Qed.

(** X17.  A teleport end to end: after [on_displace()], evaluations of
    the global-vector node before and after the displacement node first
    runs (at [t0]), an evaluation of the displacement node at some
    [t1 >= t0 + 0.1], and then one more evaluation of the global-vector
    node at position [x'], the global vector is its value before the
    teleport plus [x'] minus the last position observed while suspended
    (minus the old reference position if nothing was observed). *)
Theorem teleport_absorbed env m evs1 evs2 t0 t1 t x' :
  t0 + 0.1 <= t1 ->
  let gv := fun e : R * Num.vec2 => UpdateGlobalVec (fst e) (snd e) in
  _global_vec
    (exec_all env
       (OnDisplace :: map gv evs1
          ++ UpdateDisplace t0 :: map gv evs2
          ++ [UpdateDisplace t1; UpdateGlobalVec t x'])
       m)
  = Num.vadd (_global_vec m)
      (Num.vsub x' (last (map snd (evs1 ++ evs2)) (_bot_prev_pos m))).
Proof.
  intros Ht1 gv. subst gv.
  unfold exec_all. cbn [fold_left]. rewrite fold_left_app. cbn [fold_left].
  rewrite fold_left_app. cbn [fold_left].
  fold (exec_all env (map (fun e => UpdateGlobalVec (fst e) (snd e)) evs1)
          (exec env OnDisplace m)).
  set (s1 := exec_all env _ (exec env OnDisplace m)).
  destruct (exec_all_suspended env evs1 (exec env OnDisplace m))
    as (G1 & D1 & T1 & P1); [left; reflexivity|].
  fold s1 in G1, D1, T1, P1. cbn in G1, D1, P1.
  set (s2 := exec env (UpdateDisplace t0) s1).
  assert (E2 : s2 = set_displaced false (set_t_displace (Some t0) s1)).
  { subst s2. cbn [exec]. unfold update_displace. rewrite D1. reflexivity. }
  fold (exec_all env (map (fun e => UpdateGlobalVec (fst e) (snd e)) evs2) s2).
  set (s3 := exec_all env _ s2).
  destruct (exec_all_suspended env evs2 s2) as (G3 & D3 & T3 & P3).
  { right. rewrite E2. cbn. discriminate. }
  fold s3 in G3, D3, T3, P3. rewrite E2 in G3, D3, T3, P3.
  cbn in G3, D3, T3, P3.
  set (s4 := exec env (UpdateDisplace t1) s3).
  assert (E4 : s4 = set_t_displace None s3).
  { subst s4. cbn [exec]. unfold update_displace. rewrite D3, T3.
    replace (Num.ltb t1 (t0 + 0.1)) with false
      by (symmetry; apply NumFacts.ltb_false; lra).
    reflexivity. }
  cbn [exec].
  pose proof (update_global_vec_quiet t x' s4) as Q.
  destruct (update_global_vec t x' s4) as [g s5]. cbn [snd].
  destruct Q as (Hg & Hg' & _).
  { rewrite E4. cbn. exact D3. }
  { rewrite E4. reflexivity. }
  rewrite Hg', Hg, E4. cbn [_global_vec _bot_prev_pos set_t_displace].
  rewrite G3, G1, P3, P1, last_map_snd_app. reflexivity.
Qed.

(** A jump from near (1, 0) to (7, 7), observed twice while suspended. *)
Lemma teleport_absorbed_witness :
  _global_vec
    (exec_all example_env
       (OnDisplace :: map (fun e => UpdateGlobalVec (fst e) (snd e))
                          [(0.5, (7, 7))]
          ++ UpdateDisplace 0.5
             :: map (fun e => UpdateGlobalVec (fst e) (snd e))
                    [(0.55, (7, 7.5))]
          ++ [UpdateDisplace 0.6; UpdateGlobalVec 0.6 (7, 8)])
       (init_model (1, 0) (1, 0)))
  = Num.vadd (_global_vec (init_model (1, 0) (1, 0)))
      (Num.vsub (7, 8)
         (last (map snd ([(0.5, (7, 7))] ++ [(0.55, (7, 7.5))]))
               (_bot_prev_pos (init_model (1, 0) (1, 0))))).
Proof.
  apply (teleport_absorbed example_env (init_model (1, 0) (1, 0))
           [(0.5, (7, 7))] [(0.55, (7, 7.5))] 0.5 0.6 0.6 (7, 8)).
  lra.
Defined.

(** ** Wheel speeds: bounds and turning direction *)





(** ** Which operation may write which attribute *)

Lemma exec_goal_fields_frame env o m :
  (forall t x, o <> UpdateGoalInput t x) ->
  _goal_name (exec env o m) = _goal_name m /\
  _t_new_goal (exec env o m) = _t_new_goal m /\
  _goal_sp (exec env o m) = _goal_sp m /\
  ((forall name, o <> SetGoal name) ->
   _new_goal_name (exec env o m) = _new_goal_name m).
Proof.
  intros Ho. destruct o as [name| |t x|t|t x|t x]; cbn [exec].
  - unfold set_goal.
    destruct (match _goal_name m with Some c => _ | None => _ end);
      [repeat split; reflexivity|].
    destruct (negb _); repeat split; try reflexivity;
      intros Hn; exfalso; now apply (Hn name).
  - repeat split; reflexivity.
  - unfold update_global_vec.
    destruct (negb (_displaced m) && _); [|repeat split; reflexivity].
    destruct (Num.truthy _ || Num.truthy _); repeat split; reflexivity.
  - unfold update_displace. destruct (_displaced m);
      [repeat split; reflexivity|].
    destruct (_t_displace m) as [t0|]; [|repeat split; reflexivity].
    destruct (Num.ltb t (t0 + 0.1)); repeat split; reflexivity.
  - exfalso. now apply (Ho t x).
  - destruct (qualifying env x) eqn:Q.
    + rewrite (goal_detect_qualifying env t x m Q).
      destruct (_t_goal_reached m) as [t0|]; [|repeat split; reflexivity].
      destruct (Num.ltb (t0 + 0.2) t); repeat split; reflexivity.
    + destruct (goal_detect_not_qualifying env t x m Q) as [[e ->]| ->];
        repeat split; reflexivity.
Qed.

(** X19.  Each attribute of the controller state has its writers: the
    global vector and the reference position are written by the
    global-vector node only; the displaced flag and the displacement time
    by [on_displace] and the displacement node only; the debounce timer by
    the goal-detection node only; the current goal, the time of the goal
    change and the stored goal difference by the new-goal node only; the
    pending goal name by [set_goal] and the new-goal node only. *)
Theorem state_writers env o m :
  ((forall t x, o <> UpdateGlobalVec t x) ->
   _global_vec (exec env o m) = _global_vec m /\
   _bot_prev_pos (exec env o m) = _bot_prev_pos m) /\
  (o <> OnDisplace -> (forall t, o <> UpdateDisplace t) ->
   _displaced (exec env o m) = _displaced m /\
   _t_displace (exec env o m) = _t_displace m) /\
  ((forall t x, o <> UpdateGoalDetect t x) ->
   _t_goal_reached (exec env o m) = _t_goal_reached m) /\
  ((forall t x, o <> UpdateGoalInput t x) ->
   _goal_name (exec env o m) = _goal_name m /\
   _t_new_goal (exec env o m) = _t_new_goal m /\
   _goal_sp (exec env o m) = _goal_sp m /\
   ((forall name, o <> SetGoal name) ->
    _new_goal_name (exec env o m) = _new_goal_name m)).
Proof.
  split; [apply exec_global_vec_frame|].
  split; [apply exec_displace_frame|].
  split; [apply exec_goal_timer_frame|apply exec_goal_fields_frame].
Qed.

(** A notification of displacement writes neither the global vector nor
    the reference position. *)
Lemma state_writers_witness :
  _global_vec (exec example_env OnDisplace arrived_model)
  = _global_vec arrived_model /\
  _bot_prev_pos (exec example_env OnDisplace arrived_model)
  = _bot_prev_pos arrived_model.
Proof.
  apply (state_writers example_env OnDisplace arrived_model).
  discriminate.
Defined.

(** After arrival, a displacement and further ticks keep the flag up. *)
Lemma latch_without_set_goal_witness :
  _goal_reached
    (exec_all example_env
       [OnDisplace; UpdateDisplace 1; UpdateGlobalVec 1 (7, 7);
        UpdateGoalDetect 1 on_route_input]
       arrived_model) = true.
Proof.
  apply (latch_without_set_goal example_env
           [OnDisplace; UpdateDisplace 1; UpdateGlobalVec 1 (7, 7);
            UpdateGoalDetect 1 on_route_input] arrived_model).
  - intros name [H|[H|[H|[H|[]]]]]; discriminate.
  - reflexivity.
Defined.
